(** * Kali conversational assistant: safety gate, executor, context store

    A shallow embedding of [kali_conversational_assistant.py] (class
    [KaliAssistant]) and the properties of its command path.

    Python text is modelled as a list of characters; a character is a code
    point below 256 (type [ascii]), with Python's [str.lower], [str.isspace]
    and the [re] classes restricted to that range.  Integers are [Z].
    The assistant object, the console and the record of effects are an
    explicit store threaded through a small state-and-exception monad; the
    language model and the shell are oracles fixed per call.

    Layout: text primitives, the fragment of [re], the store and the monad,
    the methods of the class, the configuration file, the vocabulary of the
    properties, then the properties. *)

From Stdlib Require Import List Ascii String ZArith Lia Bool DecimalString.
Import ListNotations.

Set Implicit Arguments.

(** ** Python text primitives *)

Module Py.

Definition str := list ascii.

Definition nl : ascii := "010"%char.
Definition backslash : ascii := "\"%char.

(** A raw literal, r'...': the characters as written. *)
Definition raw (s : string) : str := list_ascii_of_string s.

Fixpoint unescape (s : str) : str :=
  match s with
  | [] => []
  | c :: r =>
      match r with
      | e :: r' =>
          if (Ascii.eqb c backslash && Ascii.eqb e "n")%bool
          then nl :: unescape r'
          else c :: unescape r
      | [] => [c]
      end
  end.

(** An ordinary literal, '...': the escape [\n] stands for a line feed. *)
Definition lit (s : string) : str := unescape (raw s).

Definition code (c : ascii) : N := N_of_ascii c.

(** [str.isspace] on one character (Py_UNICODE_ISSPACE below 256). *)
Definition isspace (c : ascii) : bool :=
  let n := code c in
  ((9 <=? n) && (n <=? 13) || (28 <=? n) && (n <=? 32)
   || (n =? 133) || (n =? 160))%N%bool.

(** [str.lower] on one character. *)
Definition lower_char (c : ascii) : ascii :=
  let n := code c in
  if ((65 <=? n) && (n <=? 90)
      || (192 <=? n) && (n <=? 222) && negb (n =? 215))%N%bool
  then ascii_of_N (n + 32) else c.

Definition lower (s : str) : str := map lower_char s.

Fixpoint lstrip (s : str) : str :=
  match s with
  | c :: r => if isspace c then lstrip r else s
  | [] => []
  end.

Definition rstrip (s : str) : str := rev (lstrip (rev s)).

(** [s.strip()] *)
Definition strip (s : str) : str := rstrip (lstrip s).

Fixpoint str_eqb (a b : str) : bool :=
  match a, b with
  | [], [] => true
  | x :: a', y :: b' => Ascii.eqb x y && str_eqb a' b'
  | _, _ => false
  end.

(** [s.startswith(p)] *)
Fixpoint startswith (p s : str) : bool :=
  match p with
  | [] => true
  | x :: p' =>
      match s with
      | y :: s' => Ascii.eqb x y && startswith p' s'
      | [] => false
      end
  end.

(** [s.find(p)], with [None] for Python's -1. *)
Fixpoint find (p s : str) : option nat :=
  if startswith p s then Some 0
  else match s with
       | [] => None
       | _ :: s' => option_map S (find p s')
       end.

(** [p in s] *)
Definition contains (p s : str) : bool :=
  match find p s with Some _ => true | None => false end.

(** [len(s)] *)
Definition len {A} (l : list A) : Z := Z.of_nat (List.length l).

(** Slice bounds: Python clamps an index into [0, len], counting a negative
    index from the end. *)
Definition clamp {A} (i : Z) (l : list A) : nat :=
  if (i <? 0)%Z then Z.to_nat (Z.max 0 (len l + i))
  else Z.to_nat (Z.min i (len l)).

(** [l[i:]] *)
Definition slice_from {A} (i : Z) (l : list A) : list A := skipn (clamp i l) l.

(** [l[:j]] *)
Definition slice_to {A} (j : Z) (l : list A) : list A := firstn (clamp j l) l.

(** [str(n)] for an int. *)
Definition str_of_int (n : Z) : str := raw (NilZero.string_of_int (Z.to_int n)).

(** [str(b)] for a bool. *)
Definition str_of_bool (b : bool) : str := if b then raw "True" else raw "False".

(** [sep.join(parts)] *)
Fixpoint join (sep : str) (parts : list str) : str :=
  match parts with
  | [] => []
  | [p] => p
  | p :: rest => p ++ sep ++ join sep rest
  end.

End Py.

Import Py.

(** ** The fragment of Python's [re] the assistant uses

    Patterns are kept as the source writes them (raw string literals) and
    compiled to a sequence of items: one-character atoms under a quantifier,
    and the two marks of capturing group 1.  Matching is the backtracking
    search of [re]: alternatives are tried in priority order and the first
    success wins. *)

Module Re.

Inductive atom :=
| Chr (c : ascii)     (* a literal character *)
| Space               (* \s *)
| Dot.                (* . *)

Inductive quant :=
| Once
| Many1               (* +  *)
| Many0               (* *  *)
| Lazy0.              (* *? *)

Inductive item :=
| Tok (a : atom) (q : quant)
| Open                (* ( *)
| Close.              (* ) *)

Record flags := { IGNORECASE : bool; DOTALL : bool }.

(** *** Compilation *)

Inductive token :=
| TAtom (a : atom)
| TOpen | TClose | TPlus | TStar | TQuest.

(** Characters with a meaning of their own that the fragment leaves out. *)
Definition unsupported (c : ascii) : bool :=
  existsb (Ascii.eqb c) (raw "[]{}^$|").

Definition alphanumeric (c : ascii) : bool :=
  let n := code c in
  ((48 <=? n) && (n <=? 57) || (65 <=? n) && (n <=? 90)
   || (97 <=? n) && (n <=? 122))%N%bool.

Definition plain (c : ascii) : option token :=
  if Ascii.eqb c "." then Some (TAtom Dot)
  else if Ascii.eqb c "(" then Some TOpen
  else if Ascii.eqb c ")" then Some TClose
  else if Ascii.eqb c "+" then Some TPlus
  else if Ascii.eqb c "*" then Some TStar
  else if Ascii.eqb c "?" then Some TQuest
  else if unsupported c then None
  else Some (TAtom (Chr c)).

(** After a backslash: the class [\s], the line feed [\n], or a
    punctuation character standing for itself. *)
Definition escaped (e : ascii) : option token :=
  if Ascii.eqb e "s" then Some (TAtom Space)
  else if Ascii.eqb e "n" then Some (TAtom (Chr nl))
  else if alphanumeric e then None
  else Some (TAtom (Chr e)).

Definition push {A} (x : option A) (l : option (list A)) : option (list A) :=
  match x, l with
  | Some a, Some r => Some (a :: r)
  | _, _ => None
  end.

Fixpoint lex (p : str) : option (list token) :=
  match p with
  | [] => Some []
  | c :: r =>
      if Ascii.eqb c backslash then
        match r with
        | e :: r' => push (escaped e) (lex r')
        | [] => None
        end
      else push (plain c) (lex r)
  end.

Fixpoint items_of (ts : list token) : option (list item) :=
  match ts with
  | [] => Some []
  | TAtom a :: r =>
      match r with
      | TPlus :: r' => option_map (cons (Tok a Many1)) (items_of r')
      | TStar :: r' =>
          match r' with
          | TQuest :: r'' => option_map (cons (Tok a Lazy0)) (items_of r'')
          | _ => option_map (cons (Tok a Many0)) (items_of r')
          end
      | _ => option_map (cons (Tok a Once)) (items_of r)
      end
  | TOpen :: r => option_map (cons Open) (items_of r)
  | TClose :: r => option_map (cons Close) (items_of r)
  | (TPlus | TStar | TQuest) :: _ => None
  end.

(** [re.compile(p)]; [None] stands for [re.error]. *)
Definition compile (p : str) : option (list item) :=
  match lex p with
  | Some ts => items_of ts
  | None => None
  end.

(** *** Matching *)

Definition atom_ok (fl : flags) (a : atom) (c : ascii) : bool :=
  match a with
  | Chr x =>
      if IGNORECASE fl then Ascii.eqb (lower_char c) (lower_char x)
      else Ascii.eqb c x
  | Space => isspace c
  | Dot => DOTALL fl || negb (Ascii.eqb c nl)
  end.

(** The outcome of a successful match: the text of group 1 and the text
    left after the match. *)
Definition found := (str * str)%type.

Definition keep (ing : bool) (c : ascii) (r : option found) : option found :=
  match r with
  | Some (g, rest) => Some (if ing then c :: g else g, rest)
  | None => None
  end.

Section Quantifiers.
Variable fl : flags.
Variable ing : bool.          (* inside group 1 *)
Variable a : atom.
Variable k : str -> option found.   (* the rest of the pattern *)

Definition one (s : str) : option found :=
  match s with
  | c :: s' => if atom_ok fl a c then keep ing c (k s') else None
  | [] => None
  end.

(** Greedy: take one more character first, give it back on failure. *)
Fixpoint star (s : str) : option found :=
  match s with
  | c :: s' =>
      if atom_ok fl a c then
        match keep ing c (star s') with
        | Some r => Some r
        | None => k s
        end
      else k s
  | [] => k s
  end.

(** Lazy: try the rest of the pattern first, take a character on failure. *)
Fixpoint lazy (s : str) : option found :=
  match k s with
  | Some r => Some r
  | None =>
      match s with
      | c :: s' => if atom_ok fl a c then keep ing c (lazy s') else None
      | [] => None
      end
  end.
End Quantifiers.

Fixpoint match_here (fl : flags) (its : list item) (ing : bool) (s : str)
  : option found :=
  match its with
  | [] => Some ([], s)
  | Open :: r => match_here fl r true s
  | Close :: r => match_here fl r false s
  | Tok a q :: r =>
      let k := match_here fl r ing in
      match q with
      | Once => one fl ing a k s
      | Many1 => one fl ing a (star fl ing a k) s
      | Many0 => star fl ing a k s
      | Lazy0 => lazy fl ing a k s
      end
  end.

(** Try every start position from the left. *)
Fixpoint scan (fl : flags) (its : list item) (s : str) : option found :=
  match match_here fl its false s with
  | Some r => Some r
  | None =>
      match s with
      | [] => None
      | _ :: s' => scan fl its s'
      end
  end.

(** [re.search(p, s, flags)]: group 1 of the leftmost match, if any. *)
Definition search (p : string) (s : str) (fl : flags) : option str :=
  match compile (raw p) with
  | Some its => option_map fst (scan fl its s)
  | None => None
  end.

End Re.

(** ** The assistant object and its surroundings *)

(** One message of the conversation: the dict [{"role": r, "content": c}]. *)
Record turn := Turn { role : str; content : str }.

(** The configuration keys the core reads, for a configuration in which
    each lookup succeeds with a value of the expected type (see module
    [Config] for the dict that [_load_config] builds). *)
Record settings := Settings {
  ollama_endpoint : str;        (* config["api"]["ollama_endpoint"] *)
  api_timeout : Z;              (* config["api"]["timeout"] *)
  require_confirmation : bool;  (* config["security"]["require_confirmation"] *)
  max_output : Z;               (* config["security"]["max_output"] *)
  security_timeout : Z;         (* config["security"]["timeout"] *)
  memory_size : Z               (* config["context"]["memory_size"] *)
}.

(** What the program does to the outside, in the order it does it. *)
Inductive event :=
| Print (text : str)                                        (* print *)
| Input (prompt : str)                                      (* input *)
| Post (endpoint : str) (messages : list turn) (timeout : Z) (* requests.post *)
| Run (command : str) (timeout : Z)                         (* subprocess.run *)
| LogInfo (message : str)                                   (* logging.info *)
| LogError (message : str).                                 (* logging.error *)

(** The fields of [self], then the console and the record of effects. *)
Record store := Store {
  context : list turn;
  safety_checks : bool;
  config : settings;
  is_wsl : bool;
  is_root : bool;
  user_name : str;
  session_start : str;
  platform_name : str;          (* what platform.platform() returns *)
  stdin : list str;             (* the lines still to be read *)
  trace : list event
}.

Definition set_context (c : list turn) (st : store) : store :=
  Store c (safety_checks st) (config st) (is_wsl st) (is_root st)
        (user_name st) (session_start st) (platform_name st) (stdin st)
        (trace st).

Definition set_safety_checks (b : bool) (st : store) : store :=
  Store (context st) b (config st) (is_wsl st) (is_root st)
        (user_name st) (session_start st) (platform_name st) (stdin st)
        (trace st).

Definition set_stdin (l : list str) (st : store) : store :=
  Store (context st) (safety_checks st) (config st) (is_wsl st) (is_root st)
        (user_name st) (session_start st) (platform_name st) l (trace st).

Definition set_trace (t : list event) (st : store) : store :=
  Store (context st) (safety_checks st) (config st) (is_wsl st) (is_root st)
        (user_name st) (session_start st) (platform_name st) (stdin st) t.

(** *** Computations that read and write the store and may raise *)

Inductive exn :=
| EOFError       (* input() at end of input *)
| IndexError.    (* l[0] on an empty list *)

Inductive result (A : Type) :=
| Value (a : A)
| Raised (e : exn).

Arguments Value {A} a.
Arguments Raised {A} e.

Definition M (A : Type) : Type := store -> result A * store.

Definition ret {A} (a : A) : M A := fun st => (Value a, st).

Definition bind {A B} (m : M A) (f : A -> M B) : M B :=
  fun st =>
    match m st with
    | (Value a, st') => f a st'
    | (Raised e, st') => (Raised e, st')
    end.

Definition raise {A} (e : exn) : M A := fun st => (Raised e, st).

Definition gets {A} (f : store -> A) : M A := fun st => (Value (f st), st).

Definition modify (f : store -> store) : M unit := fun st => (Value tt, f st).

Declare Scope py_scope.
Delimit Scope py_scope with py.
Notation "x <- m ;; k" := (bind m (fun x => k))
  (at level 61, m at next level, right associativity) : py_scope.
Notation "m ;; k" := (bind m (fun _ => k))
  (at level 61, right associativity) : py_scope.
Open Scope py_scope.

Definition emit (e : event) : M unit :=
  modify (fun st => set_trace (trace st ++ [e]) st).

(** [print(text)] *)
Definition print (text : str) : M unit := emit (Print text).

(** [input(prompt)]: the next line of the console, [EOFError] when there is
    none. *)
Definition input (prompt : str) : M str :=
  emit (Input prompt) ;;
  l <- gets stdin ;;
  match l with
  | line :: rest => modify (set_stdin rest) ;; ret line
  | [] => raise EOFError
  end.

(** [l[0]] *)
Definition item0 {A} (l : list A) : M A :=
  match l with
  | x :: _ => ret x
  | [] => raise IndexError
  end.

(** [enumerate(l)] *)
Fixpoint enumerate_from {A} (i : Z) (l : list A) : list (Z * A) :=
  match l with
  | [] => []
  | x :: r => (i, x) :: enumerate_from (i + 1) r
  end.

Definition enumerate {A} (l : list A) : list (Z * A) := enumerate_from 0 l.

(** A value placed in an f-string. *)
Inductive value :=
| VStr (s : str)
| VBool (b : bool)
| VInt (n : Z).

Definition format (v : value) : str :=
  match v with
  | VStr s => s
  | VBool b => str_of_bool b
  | VInt n => str_of_int n
  end.

(** *** The two collaborators *)

(** What the model backend does with a request: the ["message"]["content"]
    text of a well-formed reply, or any fault raised inside the [try] of
    [_generate_response] (time-out, network, HTTP status, malformed body),
    with its [str(e)]. *)
Inductive reply :=
| Content (text : str)
| ApiFault (description : str).

(** What [subprocess.run] does with a command. *)
Inductive finished :=
| Completed (stdout stderr : str) (returncode : Z)
| TimeoutExpired
| RunFault (description : str).

(** ** class KaliAssistant *)

Definition danger_patterns : list string :=
  [ "rm\s+-rf\s+"; "dd\s+if="; ">\s*/dev/sd"; "chmod\s+777\s+";
    ":\(\)\{.*;\};"; "mv\s+/\s*"; "fdisk\s+/dev/"; "format\s+" ]%string.

Definition ignorecase : Re.flags := {| Re.IGNORECASE := true; Re.DOTALL := false |}.
Definition dotall : Re.flags := {| Re.IGNORECASE := false; Re.DOTALL := true |}.

(** [bool(x)] for an optional match or string. *)
Definition truthy {A} (o : option A) : bool :=
  match o with Some _ => true | None => false end.

Definition fallback_text : str :=
  lit "I encountered an error processing your request. Please try again.".

Definition truncation_marker : str := lit "\n\n[OUTPUT TRUNCATED]".

Definition blocked_text : str := lit "Command blocked by safety system".

Section KaliAssistant.

Variable api : list turn -> reply.
Variable shell : str -> Z -> finished.

Definition _add_to_history (r c : str) : M unit :=
  ctx <- gets context ;;
  modify (set_context (ctx ++ [Turn r c])) ;;
  ctx <- gets context ;;
  cfg <- gets config ;;
  if (len ctx >? memory_size cfg + 1)%Z then
    first <- item0 ctx ;;
    modify (set_context ([first] ++ slice_from (- memory_size cfg) ctx))
  else ret tt.

Definition _generate_response (prompt : str) : M str :=
  ctx <- gets context ;;
  cfg <- gets config ;;
  emit (Post (ollama_endpoint cfg) ctx (api_timeout cfg)) ;;
  match api ctx with
  | Content text => ret (strip text)
  | ApiFault e =>
      emit (LogError (lit "API error: " ++ e)) ;;
      ret fallback_text
  end.

Definition _is_safe (command : str) : M bool :=
  if existsb (fun pattern => truthy (Re.search pattern command ignorecase))
             danger_patterns
  then ret false
  else
    cfg <- gets config ;;
    if require_confirmation cfg then
      print (lit "\n[Safety] Command to execute: " ++ command) ;;
      response <- input (lit "[Safety] Execute command? (y/N): ") ;;
      ret (str_eqb (lower (strip response)) (lit "y"))
    else ret true.

Definition _execute_command (command : str) : M (str * Z) :=
  match command with
  | [] => ret (lit "No command to execute", 1%Z)
  | _ =>
      checks <- gets safety_checks ;;
      blocked <- (if checks
                  then safe <- _is_safe command ;; ret (negb safe)
                  else ret false) ;;
      if blocked then ret (blocked_text, 1%Z)
      else
        cfg <- gets config ;;
        emit (Run command (security_timeout cfg)) ;;
        match shell command (security_timeout cfg) with
        | Completed stdout stderr returncode =>
            let output := stdout ++ stderr in
            let output :=
              if (len output >? max_output cfg)%Z
              then slice_to (max_output cfg) output ++ truncation_marker
              else output in
            ret (output, returncode)
        | TimeoutExpired => ret (lit "Command timed out", 1%Z)
        | RunFault e => ret (lit "Execution error: " ++ e, 1%Z)
        end
  end.

Definition _extract_command (response : str) : option str :=
  match
    (if contains (lit "```bash") response
     then Re.search "```bash\n(.*?)\n```" response dotall
     else None)
  with
  | Some group1 => Some (strip group1)
  | None =>
      if startswith (lit "$ ") response
      then Some (strip (slice_from 2 response))
      else None
  end.

Definition get_system_info : M (list (str * value)) :=
  st <- gets (fun st => st) ;;
  ret [ (lit "system", VStr (platform_name st));
        (lit "user", VStr (user_name st));
        (lit "wsl", VBool (is_wsl st));
        (lit "root", VBool (is_root st));
        (lit "session_start", VStr (session_start st));
        (lit "context_size", VInt (len (context st) - 1)) ].

Definition history_line (entry : Z * turn) : str :=
  let (i, msg) := entry in
  str_of_int (i + 1) ++ lit ". " ++ role msg ++ lit ": "
    ++ slice_to 60 (content msg)
    ++ (if (len (content msg) >? 60)%Z then lit "..." else []).

Definition handle_query (user_input : str) : M str :=
  _add_to_history (lit "user") user_input ;;
  if contains (lit "toggle safety") (lower user_input) then
    checks <- gets safety_checks ;;
    modify (set_safety_checks (negb checks)) ;;
    checks <- gets safety_checks ;;
    let status := if checks then lit "ENABLED" else lit "DISABLED" in
    ret (lit "Safety checks have been " ++ status ++ lit ".")
  else if contains (lit "system information") (lower user_input) then
    info <- get_system_info ;;
    let info_str :=
      join (lit "\n")
           (map (fun kv => fst kv ++ lit ": " ++ format (snd kv)) info) in
    ret (lit "System Information:\n" ++ info_str)
  else if contains (lit "conversation history") (lower user_input) then
    ctx <- gets context ;;
    let history :=
      join (lit "\n") (map history_line (enumerate (slice_from 1 ctx))) in
    ret (lit "Recent Conversation History:\n" ++ history)
  else if (contains (lit "exit") (lower user_input)
           || contains (lit "quit") (lower user_input))%bool then
    ret (lit "EXIT_REQUEST")
  else
    response <- _generate_response user_input ;;
    _add_to_history (lit "assistant") response ;;
    match _extract_command response with
    | Some ((_ :: _) as command) =>
        res <- _execute_command command ;;
        let (output, returncode) := res in
        let command_result :=
          lit "Command executed (exit " ++ str_of_int returncode
            ++ lit "): " ++ command ++ lit "\nOutput:\n" ++ output in
        emit (LogInfo command_result) ;;
        let follow_up :=
          lit "Command executed:\n```bash\n" ++ command
            ++ lit "\n```\nExit code: " ++ str_of_int returncode
            ++ lit "\nOutput:\n" ++ slice_to 500 output
            ++ (if (len output >? 500)%Z then lit "..." else []) in
        _add_to_history (lit "system") follow_up ;;
        if (returncode =? 0)%Z then
          ret (response ++ lit "\n\nCommand executed successfully:\n```bash\n"
                 ++ command ++ lit "\n```")
        else
          ret (response ++ lit "\n\nCommand failed (exit "
                 ++ str_of_int returncode ++ lit "):\n```bash\n"
                 ++ command ++ lit "\n```")
    | _ => ret response
    end.

End KaliAssistant.

(** [KaliAssistant()]: the object right after [__init__], for the values the
    start-up probes returned. *)
Definition system_prompt (start user platform : str) : str :=
  lit "You are an advanced AI assistant running in Kali Linux. Today is "
    ++ start ++ lit ". "
    ++ lit "User: " ++ user ++ lit ". System: " ++ platform ++ lit ". "
    ++ lit "You can help with security testing, Linux administration, coding, and general questions. "
    ++ lit "When appropriate, generate and execute commands. Always maintain a helpful, professional tone. "
    ++ lit "For security tools, provide context and explanations.".

Definition __init__ (cfg : settings) (wsl root : bool)
           (user start platform : str) (console : list str) : store :=
  {| context := [Turn (lit "system") (system_prompt start user platform)];
     safety_checks := true;
     config := cfg;
     is_wsl := wsl;
     is_root := root;
     user_name := user;
     session_start := start;
     platform_name := platform;
     stdin := console;
     trace := [LogInfo (lit "Session started for user: " ++ user)] |}.

(** ** The configuration file *)

Module Config.

(** A decoded JSON document, as [json.load] returns it (numbers are the
    integers; a dict keeps its keys in insertion order). *)
#[warnings="-register-all"]
Inductive json :=
| JNull
| JBool (b : bool)
| JInt (n : Z)
| JStr (s : str)
| JList (l : list json)
| JDict (d : list (str * json)).

(** What the start-up finds at [~/.kali_assistant.json]. *)
Inductive config_file :=
| Missing                          (* config_path.exists() is false *)
| Unreadable (description : str)   (* open or json.load raises *)
| Parsed (document : json).

Definition dict := list (str * json).

(** [d[k]], with [None] for KeyError. *)
Fixpoint lookup (k : str) (d : dict) : option json :=
  match d with
  | [] => None
  | (k', v) :: r => if str_eqb k k' then Some v else lookup k r
  end.

(** [j[k]] on any value: only a dict can be indexed by a string. *)
Definition getitem (k : str) (j : json) : option json :=
  match j with
  | JDict d => lookup k d
  | _ => None
  end.

(** [j[section][key]] *)
Definition getitem2 (section key : str) (j : json) : option json :=
  match getitem section j with
  | Some s => getitem key s
  | None => None
  end.

(** [{**a, **b}]: the keys of [a] in their order, each with the value of [b]
    when [b] has the key, then the keys only [b] has. *)
Definition merge (a b : dict) : dict :=
  map (fun kv => (fst kv, match lookup (fst kv) b with
                          | Some v => v
                          | None => snd kv
                          end)) a
  ++ filter (fun kv => negb (truthy (lookup (fst kv) a))) b.

Definition default_config : dict :=
  [ (lit "api",
     JDict [ (lit "ollama_endpoint", JStr (lit "http://localhost:11434/api/chat"));
             (lit "timeout", JInt 30) ]);
    (lit "personality",
     JDict [ (lit "name", JStr (lit "Kali-Assist"));
             (lit "tone", JStr (lit "professional"));
             (lit "verbosity", JStr (lit "detailed")) ]);
    (lit "security",
     JDict [ (lit "require_confirmation", JBool true);
             (lit "max_output", JInt 5000);
             (lit "timeout", JInt 45) ]);
    (lit "context",
     JDict [ (lit "memory_size", JInt 10) ]) ].

(** [type(j).__name__] *)
Definition type_name (j : json) : str :=
  match j with
  | JNull => lit "NoneType"
  | JBool _ => lit "bool"
  | JInt _ => lit "int"
  | JStr _ => lit "str"
  | JList _ => lit "list"
  | JDict _ => lit "dict"
  end.

(** [_load_config]: the dict it returns and what it logs.  Unpacking a
    document that is not a dict raises TypeError inside the [try]. *)
Definition _load_config (file : config_file) : dict * list event :=
  match file with
  | Missing => (default_config, [])
  | Parsed (JDict loaded) => (merge default_config loaded, [])
  | Parsed other =>
      (default_config,
       [LogError (lit "Config error: '" ++ type_name other
                    ++ lit "' object is not a mapping")])
  | Unreadable e => (default_config, [LogError (lit "Config error: " ++ e)])
  end.

(** The six lookups of the core, each with the type the core expects. *)
Definition settings_of (cfg : dict) : option settings :=
  match getitem2 (lit "api") (lit "ollama_endpoint") (JDict cfg),
        getitem2 (lit "api") (lit "timeout") (JDict cfg),
        getitem2 (lit "security") (lit "require_confirmation") (JDict cfg),
        getitem2 (lit "security") (lit "max_output") (JDict cfg),
        getitem2 (lit "security") (lit "timeout") (JDict cfg),
        getitem2 (lit "context") (lit "memory_size") (JDict cfg)
  with
  | Some (JStr e), Some (JInt t), Some (JBool c), Some (JInt o),
    Some (JInt s), Some (JInt m) => Some (Settings e t c o s m)
  | _, _, _, _, _, _ => None
  end.

(** The keys the core consumes, as (section, key). *)
Definition consumed_keys : list (str * str) :=
  [ (lit "api", lit "timeout");
    (lit "security", lit "require_confirmation");
    (lit "security", lit "max_output");
    (lit "security", lit "timeout");
    (lit "context", lit "memory_size") ].

End Config.

(** ** Vocabulary of the properties *)

(** The command matches one of the danger patterns. *)
Definition matches_danger (command : str) : Prop :=
  exists pattern, In pattern danger_patterns
                  /\ Re.search pattern command ignorecase <> None.

(** The normalised answer of the confirmation prompt is the token [y]. *)
Definition affirmative (answer : str) : bool :=
  str_eqb (lower (strip answer)) (lit "y").

Definition is_run (e : event) : bool :=
  match e with Run _ _ => true | _ => false end.

Definition is_input (e : event) : bool :=
  match e with Input _ => true | _ => false end.



(** The four control phrases of [handle_query], in the order it tests them. *)
Inductive intent := ToggleSafety | SystemInformation | ConversationHistory | Exit.

Definition intent_of (user_input : str) : option intent :=
  let u := lower user_input in
  if contains (lit "toggle safety") u then Some ToggleSafety
  else if contains (lit "system information") u then Some SystemInformation
  else if contains (lit "conversation history") u then Some ConversationHistory
  else if (contains (lit "exit") u || contains (lit "quit") u)%bool then Some Exit
  else None.

(** The conversation after [_add_to_history] appended the turn [t]. *)
Definition appended (m : Z) (ctx : list turn) (t : turn) : list turn :=
  let ctx' := ctx ++ [t] in
  if (len ctx' >? m + 1)%Z
  then firstn 1 ctx' ++ slice_from (- m) ctx'
  else ctx'.

(** The conversation after a sequence of appends. *)
Definition appended_all (m : Z) (ctx : list turn) (ts : list turn) : list turn :=
  fold_left (appended m) ts ctx.

(** The last [n] elements of a list. *)
Definition last_n {A} (n : nat) (l : list A) : list A :=
  skipn (List.length l - n) l.

(** The states a session can be in: the fresh object, and whatever a call of
    [handle_query] leaves, for any behaviour of the collaborators and any
    further console input. *)
Inductive reachable : store -> Prop :=
| reach_init cfg wsl root user start platform console :
    reachable (__init__ cfg wsl root user start platform console)
| reach_console st console :
    reachable st -> reachable (set_stdin console st)
| reach_query st api shell user_input :
    reachable st -> reachable (snd (handle_query api shell user_input st)).

(** The first fenced block of a text, by plain substring search: the text
    between the first ["```bash\n"] and the first ["\n```"] after it. *)
Definition fenced_block (text : str) : option str :=
  match find (lit "```bash\n") text with
  | None => None
  | Some i =>
      let body := skipn (i + 8) text in
      match find (lit "\n```") body with
      | None => None
      | Some k => Some (firstn k body)
      end
  end.

(** The text the executor returns for a merged output (lines "Limit output
    size" of [_execute_command]). *)
Definition limited (max : Z) (output : str) : str :=
  if (len output >? max)%Z
  then slice_to max output ++ truncation_marker
  else output.

(** The result of the executor once the subprocess call is over. *)
Definition result_of (cfg : settings) (f : finished) : str * Z :=
  match f with
  | Completed stdout stderr returncode =>
      (limited (max_output cfg) (stdout ++ stderr), returncode)
  | TimeoutExpired => (lit "Command timed out", 1%Z)
  | RunFault e => (lit "Execution error: " ++ e, 1%Z)
  end.

(** The two console events of the confirmation prompt. *)
Definition prompt_events (command : str) : list event :=
  [ Print (lit "\n[Safety] Command to execute: " ++ command);
    Input (lit "[Safety] Execute command? (y/N): ") ].


(** The gate lets the command through, leaving the store [st1]: safety
    checks are off, or the command matches no danger pattern and either no
    confirmation is required or the line read at the prompt is affirmative. *)
Inductive allowed (command : str) (st : store) : store -> Prop :=
| allowed_unchecked :
    safety_checks st = false -> allowed command st st
| allowed_unconfirmed :
    safety_checks st = true -> ~ matches_danger command ->
    require_confirmation (config st) = false -> allowed command st st
| allowed_confirmed answer rest :
    safety_checks st = true -> ~ matches_danger command ->
    require_confirmation (config st) = true ->
    stdin st = answer :: rest -> affirmative answer = true ->
    allowed command st
            (set_stdin rest (set_trace (trace st ++ prompt_events command) st)).

(** What [_generate_response] returns for a behaviour of the backend, and
    what it does on the way. *)
Definition response_of (r : reply) : str :=
  match r with
  | Content text => strip text
  | ApiFault _ => fallback_text
  end.

Definition response_events (cfg : settings) (ctx : list turn) (r : reply)
  : list event :=
  Post (ollama_endpoint cfg) ctx (api_timeout cfg)
  :: match r with
     | Content _ => []
     | ApiFault e => [LogError (lit "API error: " ++ e)]
     end.

(** The texts [handle_query] builds after a command came back. *)
Definition command_result_text (command output : str) (returncode : Z) : str :=
  lit "Command executed (exit " ++ str_of_int returncode
    ++ lit "): " ++ command ++ lit "\nOutput:\n" ++ output.

Definition follow_up_text (command output : str) (returncode : Z) : str :=
  lit "Command executed:\n```bash\n" ++ command
    ++ lit "\n```\nExit code: " ++ str_of_int returncode
    ++ lit "\nOutput:\n" ++ slice_to 500 output
    ++ (if (len output >? 500)%Z then lit "..." else []).

Definition summary_text (command : str) (returncode : Z) : str :=
  if (returncode =? 0)%Z
  then lit "\n\nCommand executed successfully:\n```bash\n" ++ command ++ lit "\n```"
  else lit "\n\nCommand failed (exit " ++ str_of_int returncode
         ++ lit "):\n```bash\n" ++ command ++ lit "\n```".

(** The dict of [get_system_info] in a store. *)
Definition system_info_of (st : store) : list (str * value) :=
  [ (lit "system", VStr (platform_name st));
    (lit "user", VStr (user_name st));
    (lit "wsl", VBool (is_wsl st));
    (lit "root", VBool (is_root st));
    (lit "session_start", VStr (session_start st));
    (lit "context_size", VInt (len (context st) - 1)) ].

(** The canned response of a control phrase, in the store [st] that holds
    the user's turn already. *)
Definition canned (i : intent) (st : store) : str :=
  match i with
  | ToggleSafety =>
      lit "Safety checks have been "
        ++ (if negb (safety_checks st) then lit "ENABLED" else lit "DISABLED")
        ++ lit "."
  | SystemInformation =>
      lit "System Information:\n"
        ++ join (lit "\n")
                (map (fun kv => fst kv ++ lit ": " ++ format (snd kv))
                     (system_info_of st))
  | ConversationHistory =>
      lit "Recent Conversation History:\n"
        ++ join (lit "\n")
                (map history_line (enumerate (slice_from 1 (context st))))
  | Exit => lit "EXIT_REQUEST"
  end.

(** The store once the user's turn is in. *)
Definition received (u : str) (st : store) : store :=
  set_context (appended (memory_size (config st)) (context st)
                        (Turn (lit "user") u)) st.

(** The store once the model's answer is in as well. *)
Definition answered_by_model (api : list turn -> reply) (u : str) (st : store)
  : store :=
  let st1 := received u st in
  let r := api (context st1) in
  set_context
    (appended (memory_size (config st)) (context st1)
              (Turn (lit "assistant") (response_of r)))
    (set_trace (trace st ++ response_events (config st) (context st1) r) st1).


(** A literal word as pattern items, and the items of the fence pattern. *)
Definition word (w : str) : list Re.item :=
  map (fun c => Re.Tok (Re.Chr c) Re.Once) w.

Definition fence_open : str := lit "```bash\n".
Definition fence_close : str := lit "\n```".

Definition fence_items : list Re.item :=
  word fence_open ++ [Re.Open; Re.Tok Re.Dot Re.Lazy0; Re.Close]
    ++ word fence_close.

(** [s.split("\n")] *)
Fixpoint lines (s : str) : list str :=
  match s with
  | [] => [[]]
  | c :: r =>
      if Ascii.eqb c nl then [] :: lines r
      else match lines r with
           | l :: ls => (c :: l) :: ls
           | [] => [[c]]
           end
  end.

(** Command extraction as the specification words it: the inner text of the
    first fenced block, else the remainder of the first line that starts
    with the marker ["$ "], else nothing. *)
Definition spec_extract_command (text : str) : option str :=
  match fenced_block text with
  | Some inner => Some (strip inner)
  | None =>
      match List.find (startswith (lit "$ ")) (lines text) with
      | Some line => Some (skipn 2 line)
      | None => None
      end
  end.

(** A run of calls of [_add_to_history], one per turn. *)
Fixpoint add_all (ts : list turn) : M unit :=
  match ts with
  | [] => ret tt
  | t :: rest => _add_to_history (role t) (content t) ;; add_all rest
  end.

(** Two stores with the same configuration and session metadata. *)
Definition same_setup (st st' : store) : Prop :=
  config st' = config st
  /\ is_wsl st' = is_wsl st /\ is_root st' = is_root st
  /\ user_name st' = user_name st /\ session_start st' = session_start st
  /\ platform_name st' = platform_name st.

(** What a computation added to the record of effects. *)
Definition added (st st' : store) : list event :=
  skipn (List.length (trace st)) (trace st').

(** How often a kind of event occurs. *)
Definition count (p : event -> bool) (t : list event) : nat :=
  List.length (filter p t).

(** The console after a computation: untouched, or one line shorter. *)
Definition read_at_most_one (st st' : store) : Prop :=
  stdin st' = stdin st \/ exists line, stdin st = line :: stdin st'.

(** The five ways a call of [_execute_command] can go, with its result and
    final store. *)
Inductive executed (shell : str -> Z -> finished) (command : str) (st : store)
  : result (str * Z) * store -> Prop :=
| exec_nothing :
    command = [] ->
    executed shell command st (Value (lit "No command to execute", 1%Z), st)
| exec_vetoed :
    command <> [] -> safety_checks st = true -> matches_danger command ->
    executed shell command st (Value (blocked_text, 1%Z), st)
| exec_declined answer rest :
    command <> [] -> safety_checks st = true -> ~ matches_danger command ->
    require_confirmation (config st) = true ->
    stdin st = answer :: rest -> affirmative answer = false ->
    executed shell command st
             (Value (blocked_text, 1%Z),
              set_stdin rest (set_trace (trace st ++ prompt_events command) st))
| exec_eof :
    command <> [] -> safety_checks st = true -> ~ matches_danger command ->
    require_confirmation (config st) = true -> stdin st = [] ->
    executed shell command st
             (Raised EOFError,
              set_trace (trace st ++ prompt_events command) st)
| exec_ran st1 :
    command <> [] -> allowed command st st1 ->
    executed shell command st
             (Value (result_of (config st)
                               (shell command (security_timeout (config st)))),
              set_trace (trace st1 ++ [Run command (security_timeout (config st))])
                        st1).

Definition is_post (e : event) : bool :=
  match e with Post _ _ _ => true | _ => false end.

(** The system turn that [__init__] builds from the session metadata. *)
Definition system_turn (st : store) : turn :=
  Turn (lit "system")
       (system_prompt (session_start st) (user_name st) (platform_name st)).

(** Plain spellings of seven of the catalogued idioms. *)
Definition triggers : list str :=
  [ lit "rm -rf "; lit "dd if="; lit ">/dev/sd"; lit "chmod 777 ";
    lit "mv /"; lit "fdisk /dev/"; lit "format " ].

(** ** The loop of [main] *)

(** [try: m except Exception as e: h(e)] *)
Definition catch {A} (m : M A) (h : exn -> M A) : M A :=
  fun st =>
    match m st with
    | (Value a, st') => (Value a, st')
    | (Raised e, st') => h e st'
    end.

(** [str(e)] *)
Definition str_of_exn (e : exn) : str :=
  match e with
  | EOFError => lit "EOF when reading a line"
  | IndexError => lit "list index out of range"
  end.

(** How an iteration of [while True] ends. *)
Inductive flow := Continue | Break.

Definition you_prompt : str := lit "\nYou: ".
Definition goodbye : str := lit "\nGoodbye! Have a great day.".

Section Main.

(** The collaborators at each iteration, and the text of the elapsed time
    as [{response_time:.2f}] prints it. *)
Variable backend : nat -> list turn -> reply.
Variable shells : nat -> str -> Z -> finished.
Variable elapsed : nat -> str.

(** The body of the loop, at iteration [i]. *)
Definition iteration (i : nat) : M flow :=
  catch
    (line <- input you_prompt ;;
     let user_input := strip line in
     match user_input with
     | [] => ret Continue
     | _ =>
         response <- handle_query (backend i) (shells i) user_input ;;
         if str_eqb response (lit "EXIT_REQUEST") then
           print goodbye ;; ret Break
         else
           print (lit "\nAssistant (" ++ elapsed i ++ lit "s):") ;;
           print response ;;
           ret Continue
     end)
    (fun e => print (lit "Error: " ++ str_of_exn e) ;; ret Continue).

(** [while True], cut after [fuel] iterations: [None] when the fuel ran
    out before a [break]. *)
Fixpoint loop (fuel i : nat) : M (option unit) :=
  match fuel with
  | 0 => ret None
  | S fuel' =>
      f <- iteration i ;;
      match f with
      | Break => ret (Some tt)
      | Continue => loop fuel' (S i)
      end
  end.

End Main.

(** ** Sample values *)

Definition default_settings : settings :=
  {| ollama_endpoint := lit "http://localhost:11434/api/chat";
     api_timeout := 30;
     require_confirmation := true;
     max_output := 5000;
     security_timeout := 45;
     memory_size := 10 |}.

Definition with_memory_size (m : Z) (cfg : settings) : settings :=
  Settings (ollama_endpoint cfg) (api_timeout cfg) (require_confirmation cfg)
           (max_output cfg) (security_timeout cfg) m.


(** A fresh session of user [kali] with the given settings and console. *)
Definition fresh (cfg : settings) (console : list str) : store :=
  __init__ cfg false false (lit "kali") (lit "2024-01-01 00:00:00")
           (lit "Linux") console.

(** A model that always proposes [rm -rf /] in a fenced block. *)
Definition wipe_api (_ : list turn) : reply :=
  Content (lit "```bash\nrm -rf /\n```").

(** A model backend that is down. *)
Definition dead_api (_ : list turn) : reply :=
  ApiFault (lit "Connection refused").

(** A shell in which every command prints [done] and succeeds. *)
Definition ok_shell (_ : str) (_ : Z) : finished :=
  Completed (lit "done\n") [] 0.

Definition with_confirmation (b : bool) (cfg : settings) : settings :=
  Settings (ollama_endpoint cfg) (api_timeout cfg) b
           (max_output cfg) (security_timeout cfg) (memory_size cfg).

(** A model that proposes [echo hi], and a shell that runs it. *)
Definition echo_api (_ : list turn) : reply :=
  Content (lit "```bash\necho hi\n```").

Definition echo_shell (_ : str) (_ : Z) : finished :=
  Completed (lit "hi\n") [] 0.

(** * Properties *)

(** ** Text and list helpers *)



Lemma slice_from_neg {A} (m : Z) (l : list A) :
  (1 <= m)%Z -> slice_from (- m) l = last_n (Z.to_nat m) l.
Proof.
  intros Hm. unfold slice_from, last_n, clamp, len.
  destruct (Z.ltb_spec (- m) 0) as [_ | H]; [| lia].
  f_equal. lia.
Qed.


Lemma last_n_length {A} (n : nat) (l : list A) :
  List.length (last_n n l) = Nat.min n (List.length l).
Proof. unfold last_n. rewrite length_skipn. lia. Qed.

Lemma last_n_all {A} (n : nat) (l : list A) :
  List.length l <= n -> last_n n l = l.
Proof.
  intros H. unfold last_n.
  replace (List.length l - n) with 0 by lia. reflexivity.
Qed.

Lemma last_n_app_one {A} (n : nat) (l : list A) (x : A) :
  last_n (S n) (l ++ [x]) = last_n n l ++ [x].
Proof.
  unfold last_n. rewrite length_app. simpl.
  replace (List.length l + 1 - S n) with (List.length l - n) by lia.
  rewrite skipn_app.
  replace (List.length l - n - List.length l) with 0 by lia.
  reflexivity.
Qed.

Lemma last_n_last_n {A} (n k : nat) (l : list A) :
  n <= k -> last_n n (last_n k l) = last_n n l.
Proof.
  intros H. unfold last_n. rewrite length_skipn, skipn_skipn.
  f_equal. lia.
Qed.

(** ** The context store *)

Section ContextStore.

Variable m : Z.                  (* memory_size *)

(** [_add_to_history] never raises, and touches the conversation only. *)
Lemma add_to_history_appended (r c : str) (st : store) :
  memory_size (config st) = m ->
  _add_to_history r c st
  = (Value tt, set_context (appended m (context st) (Turn r c)) st).
Proof.
  intros <-. unfold _add_to_history, appended, bind, gets, modify, ret. simpl.
  destruct (len (context st ++ [Turn r c]) >? memory_size (config st) + 1)%Z;
    [| reflexivity].
  destruct (context st ++ [Turn r c]) as [| first rest] eqn:E.
  - destruct (context st); discriminate.
  - reflexivity.
Qed.

Hypothesis m_pos : (1 <= m)%Z.

(** One append to a conversation that has a first turn. *)
Lemma appended_head (sys t : turn) (rest : list turn) :
  appended m (sys :: rest) t
  = sys :: last_n (Z.to_nat m) (rest ++ [t]).
Proof.
  unfold appended. rewrite slice_from_neg by assumption. simpl app.
  destruct (Z.gtb_spec (len (sys :: rest ++ [t])) (m + 1)) as [H | H].
  - simpl firstn. simpl app. f_equal.
    unfold last_n. simpl List.length.
    unfold len in H. simpl List.length in H.
    replace (S (List.length (rest ++ [t])) - Z.to_nat m)
      with (S (List.length (rest ++ [t]) - Z.to_nat m)) by lia.
    reflexivity.
  - rewrite last_n_all; [reflexivity |].
    unfold len in H. simpl List.length in H. lia.
Qed.

(** Any number of appends to a conversation that starts with the system
    turn: the system turn, then the last [memory_size] appended turns in
    their order. *)
Lemma appended_all_closed_form (sys : turn) (ts : list turn) :
  appended_all m [sys] ts = sys :: last_n (Z.to_nat m) ts.
Proof.
  unfold appended_all.
  induction ts as [| t ts IH] using rev_ind.
  - reflexivity.
  - rewrite fold_left_app. simpl. rewrite IH, appended_head.
    f_equal.
    destruct (Z.to_nat m) as [| n] eqn:En; [lia |].
    rewrite !last_n_app_one. rewrite last_n_last_n by lia. reflexivity.
Qed.

Lemma appended_all_bounded (sys : turn) (ts : list turn) :
  (len (appended_all m [sys] ts) <= m + 1)%Z
  /\ nth_error (appended_all m [sys] ts) 0 = Some sys.
Proof.
  rewrite appended_all_closed_form. split; [| reflexivity].
  unfold len. simpl List.length. rewrite last_n_length. lia.
Qed.

End ContextStore.

(** A memory size of 0 makes every append grow the conversation by two:
    [ctx[-0:]] is the whole list. *)
Lemma appended_zero (sys t : turn) (rest : list turn) :
  appended 0 (sys :: rest) t = sys :: sys :: rest ++ [t].
Proof.
  unfold appended. simpl app.
  destruct (Z.gtb_spec (len (sys :: rest ++ [t])) (0 + 1)) as [_ | H].
  - reflexivity.
  - unfold len in H. simpl List.length in H. rewrite length_app in H.
    simpl in H. lia.
Qed.

Lemma add_all_appended (m : Z) (ts : list turn) (st : store) :
  memory_size (config st) = m ->
  add_all ts st = (Value tt, set_context (appended_all m (context st) ts) st).
Proof.
  intros Hm. revert st Hm. induction ts as [| t ts IH]; intros st Hm.
  - destruct st. reflexivity.
  - destruct t as [r c]. simpl add_all. unfold bind.
    rewrite (add_to_history_appended (m := m)) by assumption.
    rewrite IH by assumption. reflexivity.
Qed.

(** For a memory size of at least 1, any run of appends on the fresh
    conversation keeps the system turn first, stays within
    [memory_size + 1] turns, and holds the last [memory_size] appended turns
    in their order. *)
Lemma history_bounded (m : Z) (sys : turn) (ts : list turn) (st : store) :
  (1 <= m)%Z -> memory_size (config st) = m -> context st = [sys] ->
  exists st',
    add_all ts st = (Value tt, st')
    /\ context st' = sys :: last_n (Z.to_nat m) ts
    /\ (len (context st') <= m + 1)%Z
    /\ nth_error (context st') 0 = Some sys.
Proof.
  intros Hm Hcfg Hctx. eexists. split; [apply add_all_appended; eassumption |].
  simpl context. rewrite Hctx.
  destruct (appended_all_bounded Hm sys ts) as [Hlen Hhd].
  rewrite appended_all_closed_form in * by assumption. auto.
Qed.

(** The scenario of the specification: [memory_size = 2], five appends,
    three turns left. *)
Example five_appends_leave_three :
  let st := fresh (with_memory_size 2 default_settings) [] in
  let ts := [Turn (lit "user") (lit "a"); Turn (lit "assistant") (lit "b");
             Turn (lit "user") (lit "c"); Turn (lit "assistant") (lit "d");
             Turn (lit "user") (lit "e")] in
  context (snd (add_all ts st))
  = context st ++ [Turn (lit "assistant") (lit "d"); Turn (lit "user") (lit "e")].
Proof. vm_compute. reflexivity. Qed.

(** C4 (the code departs from the claim): with [memory_size = 0] the first
    append to the fresh conversation leaves three turns, the system turn
    twice, where the bound [memory_size + 1] is one. *)
Theorem add_to_history_memory_size_zero :
  let st := fresh (with_memory_size 0 default_settings) [] in
  let sys := Turn (lit "system")
                  (system_prompt (session_start st) (user_name st)
                                 (platform_name st)) in
  let after := context (snd (_add_to_history (lit "user") (lit "hi") st)) in
  after = [sys; sys; Turn (lit "user") (lit "hi")]
  /\ (len after > memory_size (config st) + 1)%Z.
Proof.
  cbv zeta.
  rewrite (add_to_history_appended (m := 0)) by reflexivity.
  split; [apply appended_zero | reflexivity].
Qed.

(** ** The safety gate *)

Lemma str_eqb_eq (a b : str) : str_eqb a b = true <-> a = b.
Proof.
  revert b. induction a as [| x a IH]; intros [| y b]; simpl;
    try (split; [discriminate | discriminate]); [tauto |].
  rewrite andb_true_iff, Ascii.eqb_eq, IH.
  split; [intros [-> ->]; reflexivity | intros [= -> ->]; auto].
Qed.

Lemma truthy_true {A} (o : option A) : truthy o = true <-> o <> None.
Proof. destruct o; simpl; split; congruence. Qed.

(** The loop over [danger_patterns] finds a match exactly when the command
    matches one of them. *)
Lemma danger_loop (command : str) :
  existsb (fun pattern => truthy (Re.search pattern command ignorecase))
          danger_patterns = true
  <-> matches_danger command.
Proof.
  rewrite existsb_exists. unfold matches_danger.
  split; intros [p [Hin Hp]]; exists p; split; trivial;
    apply truthy_true; assumption.
Qed.

Lemma danger_loop_false (command : str) :
  ~ matches_danger command ->
  existsb (fun pattern => truthy (Re.search pattern command ignorecase))
          danger_patterns = false.
Proof.
  intros H. apply not_true_is_false. rewrite danger_loop. assumption.
Qed.

(** Deciding the catalogue on a concrete command. *)
Ltac dangerous_by p :=
  exists p; split; [simpl; auto 10 | vm_compute; discriminate].

Ltac harmless :=
  let H := fresh "H" in
  intros H; apply danger_loop in H; vm_compute in H; discriminate H.

(** Every pattern of the catalogue compiles. *)
Lemma danger_patterns_compile :
  Forall (fun p => Re.compile (raw p) <> None) danger_patterns.
Proof. repeat constructor; discriminate. Qed.

(** No pattern of the catalogue matches the empty command. *)
Lemma empty_not_dangerous : ~ matches_danger [].
Proof. harmless. Qed.

Lemma is_safe_danger (command : str) (st : store) :
  matches_danger command -> _is_safe command st = (Value false, st).
Proof.
  intros H. apply danger_loop in H. unfold _is_safe. rewrite H. reflexivity.
Qed.

Lemma is_safe_unconfirmed (command : str) (st : store) :
  ~ matches_danger command -> require_confirmation (config st) = false ->
  _is_safe command st = (Value true, st).
Proof.
  intros H Hc. unfold _is_safe. rewrite (danger_loop_false H).
  unfold bind, gets. rewrite Hc. reflexivity.
Qed.

Lemma is_safe_confirmed (command answer : str) (rest : list str) (st : store) :
  ~ matches_danger command -> require_confirmation (config st) = true ->
  stdin st = answer :: rest ->
  _is_safe command st
  = (Value (affirmative answer),
     set_stdin rest (set_trace (trace st ++ prompt_events command) st)).
Proof.
  intros H Hc Hin. unfold _is_safe. rewrite (danger_loop_false H).
  unfold bind, gets, print, input, emit, modify, ret, bind, gets. simpl.
  rewrite Hc. simpl. rewrite Hin. simpl.
  unfold set_stdin, set_trace, prompt_events, affirmative. simpl.
  rewrite <- app_assoc. reflexivity.
Qed.

(** At the end of the console input the prompt raises. *)
Lemma is_safe_eof (command : str) (st : store) :
  ~ matches_danger command -> require_confirmation (config st) = true ->
  stdin st = [] ->
  _is_safe command st
  = (Raised EOFError, set_trace (trace st ++ prompt_events command) st).
Proof.
  intros H Hc Hin. unfold _is_safe. rewrite (danger_loop_false H).
  unfold bind, gets, print, input, emit, modify, ret, bind, gets. simpl.
  rewrite Hc. simpl. rewrite Hin. simpl.
  unfold set_trace, prompt_events. simpl.
  rewrite <- app_assoc. reflexivity.
Qed.

(** C1: the authorization check.  A command that matches a danger pattern
    is refused with the store untouched (nothing is printed, nothing is
    read), whatever [require_confirmation] and the console hold; any other
    command is allowed with the store untouched when [require_confirmation]
    is off; and when it is on the command is shown, one line is read, and
    the verdict is true exactly when that line, stripped and lower-cased,
    is [y] - so the empty line denies. *)
Theorem is_safe_decision (command : str) (st : store) :
  (matches_danger command -> _is_safe command st = (Value false, st))
  /\ (~ matches_danger command -> require_confirmation (config st) = false ->
      _is_safe command st = (Value true, st))
  /\ (~ matches_danger command -> require_confirmation (config st) = true ->
      forall answer rest, stdin st = answer :: rest ->
        _is_safe command st
        = (Value (affirmative answer),
           set_stdin rest (set_trace (trace st ++ prompt_events command) st))
        /\ (affirmative answer = true <-> lower (strip answer) = lit "y"))
  /\ affirmative [] = false.
Proof.
  split; [apply is_safe_danger |].
  split; [apply is_safe_unconfirmed |].
  split; [| reflexivity].
  intros H Hc answer rest Hin. split.
  - apply is_safe_confirmed; assumption.
  - unfold affirmative. apply str_eqb_eq.
Qed.

(** ** The executor *)

Section Executor.

Variable shell : str -> Z -> finished.

Lemma execute_empty (st : store) :
  _execute_command shell [] st = (Value (lit "No command to execute", 1%Z), st).
Proof. reflexivity. Qed.

(** The executor is the gate followed by the guarded subprocess call. *)
Lemma execute_after_gate (command : str) (st : store) :
  command <> [] ->
  _execute_command shell command st
  = match (if safety_checks st then _is_safe command st else (Value true, st)) with
    | (Value true, st1) =>
        (Value (result_of (config st1)
                          (shell command (security_timeout (config st1)))),
         set_trace (trace st1 ++ [Run command (security_timeout (config st1))]) st1)
    | (Value false, st1) => (Value (blocked_text, 1%Z), st1)
    | (Raised e, st1) => (Raised e, st1)
    end.
Proof.
  intros Hne. destruct command as [| c0 command]; [congruence |].
  unfold _execute_command, bind, gets, ret, emit, modify. simpl.
  destruct (safety_checks st).
  - destruct (_is_safe (c0 :: command) st) as [[[|] | e] st1]; simpl; trivial.
    destruct (shell (c0 :: command) (security_timeout (config st1))); reflexivity.
  - simpl.
    destruct (shell (c0 :: command) (security_timeout (config st))); reflexivity.
Qed.

Lemma matches_danger_nonempty (command : str) :
  matches_danger command -> command <> [].
Proof. intros H ->. exact (empty_not_dangerous H). Qed.

(** A dangerous command is refused while safety checks are on. *)
Lemma execute_blocked (command : str) (st : store) :
  safety_checks st = true -> matches_danger command ->
  _execute_command shell command st = (Value (blocked_text, 1%Z), st).
Proof.
  intros Hs Hd.
  rewrite execute_after_gate by (apply matches_danger_nonempty; assumption).
  rewrite Hs, is_safe_danger by assumption. reflexivity.
Qed.

(** A command the operator does not confirm is refused. *)
Lemma execute_denied (command answer : str) (rest : list str) (st : store) :
  command <> [] ->
  safety_checks st = true -> ~ matches_danger command ->
  require_confirmation (config st) = true ->
  stdin st = answer :: rest -> affirmative answer = false ->
  _execute_command shell command st
  = (Value (blocked_text, 1%Z),
     set_stdin rest (set_trace (trace st ++ prompt_events command) st)).
Proof.
  intros Hne Hs Hd Hc Hin Ha. rewrite execute_after_gate by assumption.
  rewrite Hs, (is_safe_confirmed _ Hd Hc Hin), Ha. reflexivity.
Qed.

(** A command the gate lets through is run, once. *)
Lemma execute_allowed (command : str) (st st1 : store) :
  command <> [] -> allowed command st st1 ->
  _execute_command shell command st
  = (Value (result_of (config st)
                      (shell command (security_timeout (config st)))),
     set_trace (trace st1 ++ [Run command (security_timeout (config st))]) st1).
Proof.
  intros Hne Ha. rewrite execute_after_gate by assumption.
  destruct Ha as [Hs | Hs Hd Hc | answer rest Hs Hd Hc Hin Hy].
  - rewrite Hs. reflexivity.
  - rewrite Hs, is_safe_unconfirmed by assumption. reflexivity.
  - rewrite Hs, (is_safe_confirmed _ Hd Hc Hin), Hy. reflexivity.
Qed.

(** At the end of the console input the executor raises. *)
Lemma execute_eof (command : str) (st : store) :
  command <> [] ->
  safety_checks st = true -> ~ matches_danger command ->
  require_confirmation (config st) = true -> stdin st = [] ->
  _execute_command shell command st
  = (Raised EOFError, set_trace (trace st ++ prompt_events command) st).
Proof.
  intros Hne Hs Hd Hc Hin. rewrite execute_after_gate by assumption.
  rewrite Hs, is_safe_eof by assumption. reflexivity.
Qed.

End Executor.

(** *** Truncation *)





(** *** Totality *)


Lemma danger_dec (command : str) :
  {matches_danger command} + {~ matches_danger command}.
Proof.
  destruct (existsb (fun pattern => truthy (Re.search pattern command ignorecase))
                    danger_patterns) eqn:E.
  - left. apply danger_loop. assumption.
  - right. intros H. apply danger_loop in H. congruence.
Qed.



(** ** The orchestrator *)

Section Orchestrator.

Variable api : list turn -> reply.
Variable shell : str -> Z -> finished.

(** The model call never raises: a fault becomes the fallback text. *)
Lemma generate_response_run (prompt : str) (st : store) :
  _generate_response api prompt st
  = (Value (response_of (api (context st))),
     set_trace (trace st ++ response_events (config st) (context st)
                                            (api (context st))) st).
Proof.
  unfold _generate_response, response_events, bind, gets, emit, modify, ret.
  simpl. destruct (api (context st)); simpl; [reflexivity |].
  unfold set_trace. simpl. rewrite <- app_assoc. reflexivity.
Qed.

Lemma intent_none (u : str) :
  intent_of u = None ->
  contains (lit "toggle safety") (lower u) = false
  /\ contains (lit "system information") (lower u) = false
  /\ contains (lit "conversation history") (lower u) = false
  /\ contains (lit "exit") (lower u) = false
  /\ contains (lit "quit") (lower u) = false.
Proof.
  unfold intent_of.
  destruct (contains (lit "toggle safety") (lower u)); [discriminate |].
  destruct (contains (lit "system information") (lower u)); [discriminate |].
  destruct (contains (lit "conversation history") (lower u)); [discriminate |].
  destruct (contains (lit "exit") (lower u)); [discriminate |].
  destruct (contains (lit "quit") (lower u)); [discriminate |].
  auto.
Qed.

(** A control phrase: canned response, no model call. *)
Lemma handle_query_special (u : str) (st : store) (i : intent) :
  intent_of u = Some i ->
  handle_query api shell u st
  = (Value (canned i (received u st)),
     match i with
     | ToggleSafety => set_safety_checks (negb (safety_checks st)) (received u st)
     | _ => received u st
     end).
Proof.
  intros Hi. unfold handle_query, bind.
  rewrite (add_to_history_appended (m := memory_size (config st)))
    by reflexivity.
  fold (received u st). unfold intent_of in Hi.
  destruct (contains (lit "toggle safety") (lower u)).
  { injection Hi as <-. reflexivity. }
  destruct (contains (lit "system information") (lower u)).
  { injection Hi as <-. reflexivity. }
  destruct (contains (lit "conversation history") (lower u)).
  { injection Hi as <-. reflexivity. }
  destruct (contains (lit "exit") (lower u) || contains (lit "quit") (lower u))%bool.
  { injection Hi as <-. reflexivity. }
  discriminate.
Qed.

(** Up to command extraction on the model path. *)
Lemma handle_query_model (u : str) (st : store) :
  intent_of u = None ->
  handle_query api shell u st
  = let response := response_of (api (context (received u st))) in
    match _extract_command response with
    | Some ((_ :: _) as command) =>
        match _execute_command shell command (answered_by_model api u st) with
        | (Value (output, returncode), st4) =>
            (Value (response ++ summary_text command returncode),
             set_context
               (appended (memory_size (config st4)) (context st4)
                         (Turn (lit "system")
                               (follow_up_text command output returncode)))
               (set_trace
                  (trace st4
                     ++ [LogInfo (command_result_text command output returncode)])
                  st4))
        | (Raised e, st4) => (Raised e, st4)
        end
    | _ => (Value response, answered_by_model api u st)
    end.
Proof.
  intros Hi. destruct (intent_none _ Hi) as (H1 & H2 & H3 & H4 & H5).
  unfold handle_query, bind at 1.
  rewrite (add_to_history_appended (m := memory_size (config st)))
    by reflexivity.
  fold (received u st). rewrite H1, H2, H3, H4, H5.
  change (false || false)%bool with false. cbv iota.
  unfold bind at 1. rewrite generate_response_run.
  unfold bind at 1.
  rewrite (add_to_history_appended (m := memory_size (config st)))
    by reflexivity.
  change (set_context _ (set_trace _ (received u st)))
    with (answered_by_model api u st).
  cbv zeta.
  destruct (_extract_command (response_of (api (context (received u st)))))
    as [[| c0 command] |]; try reflexivity.
  unfold bind at 1.
  destruct (_execute_command shell (c0 :: command) (answered_by_model api u st))
    as [[[output returncode] | e] st4]; [| reflexivity].
  unfold bind at 1, emit at 1, modify at 1.
  unfold bind at 1.
  rewrite (add_to_history_appended (m := memory_size (config st4)))
    by reflexivity.
  unfold summary_text, follow_up_text, command_result_text.
  simpl context. simpl config.
  destruct (returncode =? 0)%Z; reflexivity.
Qed.

End Orchestrator.

(** *** Control phrases *)

Lemma in_firstn {A} (n : nat) (l : list A) (x : A) :
  In x (firstn n l) -> In x l.
Proof.
  intros H. rewrite <- (firstn_skipn n l). apply in_or_app. left. assumption.
Qed.

Lemma in_skipn {A} (n : nat) (l : list A) (x : A) :
  In x (skipn n l) -> In x l.
Proof.
  intros H. rewrite <- (firstn_skipn n l). apply in_or_app. right. assumption.
Qed.

(** An append never brings in a turn other than the new one. *)
Lemma in_appended (m : Z) (ctx : list turn) (t x : turn) :
  In x (appended m ctx t) -> In x ctx \/ x = t.
Proof.
  unfold appended, slice_from. intros H.
  assert (Hin : In x (ctx ++ [t])).
  { destruct (len (ctx ++ [t]) >? m + 1)%Z; [| assumption].
    apply in_app_or in H. destruct H as [H | H];
      [apply in_firstn in H | apply in_skipn in H]; assumption. }
  apply in_app_or in Hin. destruct Hin as [Hin | [Hin | []]]; auto.
Qed.



(** *** A failing model backend *)

Lemma appended_last (m : Z) (ctx : list turn) (t : turn) :
  (1 <= m)%Z -> exists before, appended m ctx t = before ++ [t].
Proof.
  intros Hm. destruct ctx as [| sys rest].
  - exists []. unfold appended. simpl app.
    destruct (Z.gtb_spec (len [t]) (m + 1)) as [H | _]; [| reflexivity].
    unfold len in H. simpl in H. lia.
  - rewrite appended_head by assumption.
    destruct (Z.to_nat m) as [| n] eqn:En; [lia |].
    rewrite last_n_app_one. exists (sys :: last_n n rest). reflexivity.
Qed.

Lemma appended_keeps_last (m : Z) (before : list turn) (t1 t2 : turn) :
  (2 <= m)%Z ->
  exists before', appended m (before ++ [t1]) t2 = before' ++ [t1; t2].
Proof.
  intros Hm. destruct before as [| sys rest]; simpl app;
    rewrite appended_head by lia.
  - exists []. rewrite last_n_all; [reflexivity | simpl; lia].
  - destruct (Z.to_nat m) as [| [| n]] eqn:En; [lia | lia |].
    rewrite !last_n_app_one. exists (sys :: last_n n rest).
    simpl. rewrite <- app_assoc. reflexivity.
Qed.

Lemma extract_fallback : _extract_command fallback_text = None.
Proof. vm_compute. reflexivity. Qed.

(** C8, counterexample: with [memory_size = 1] the append of the fallback
    turn evicts the user's turn; after the call the conversation is the
    system turn and the fallback. *)
Lemma user_turn_evicted_when_memory_is_one :
  let st := fresh (with_memory_size 1 default_settings) [] in
  let st' := snd (handle_query dead_api ok_shell (lit "hello") st) in
  fst (handle_query dead_api ok_shell (lit "hello") st) = Value fallback_text
  /\ context st' = context st ++ [Turn (lit "assistant") fallback_text]
  /\ ~ In (Turn (lit "user") (lit "hello")) (context st').
Proof.
  cbv zeta. split; [vm_compute; reflexivity |].
  split; [vm_compute; reflexivity |].
  vm_compute. intros [H | [H | []]]; discriminate H.
Qed.

(** C8, as amended: a user turn that reaches the model query while the
    backend fails.  [handle_query] returns the fixed fallback text and does
    not raise; the only effects are the request and the error log; with
    [memory_size] at least 1 the fallback is the last turn of the
    conversation, and with [memory_size] at least 2 the user's turn is
    still there, right before it. *)
Theorem model_fault_recovered (api : list turn -> reply)
        (shell : str -> Z -> finished) (u e : str) (st : store) :
  intent_of u = None ->
  api (context (received u st)) = ApiFault e ->
  exists st',
    handle_query api shell u st = (Value fallback_text, st')
    /\ trace st'
       = trace st ++ [ Post (ollama_endpoint (config st))
                            (context (received u st)) (api_timeout (config st));
                       LogError (lit "API error: " ++ e) ]
    /\ ((1 <= memory_size (config st))%Z ->
        exists before,
          context st' = before ++ [Turn (lit "assistant") fallback_text])
    /\ ((2 <= memory_size (config st))%Z ->
        exists before,
          context st' = before ++ [Turn (lit "user") u;
                                   Turn (lit "assistant") fallback_text]).
Proof.
  intros Hi He. exists (answered_by_model api u st).
  split.
  { rewrite handle_query_model by assumption. cbv zeta.
    rewrite He. simpl response_of. rewrite extract_fallback. reflexivity. }
  unfold answered_by_model. cbv zeta. rewrite He. simpl.
  split; [reflexivity |]. split.
  - intros Hm. apply appended_last. assumption.
  - intros Hm.
    destruct (appended_last (context st) (Turn (lit "user") u)
                            (m := memory_size (config st))) as [b Hb]; [lia |].
    rewrite Hb. apply appended_keeps_last. assumption.
Qed.

(** *** Dangerous commands *)

Lemma rm_rf_dangerous : matches_danger (lit "rm -rf /").
Proof.
  dangerous_by "rm\s+-rf\s+"%string.
Qed.

(** C2, counterexample: after the phrase [toggle safety] the session is in
    a state where the executor runs [rm -rf /], and so does the next query
    whose answer proposes it. *)
Lemma danger_runs_after_toggle :
  let st := snd (handle_query dead_api ok_shell (lit "toggle safety")
                              (fresh default_settings [])) in
  reachable st
  /\ matches_danger (lit "rm -rf /")
  /\ trace (snd (_execute_command ok_shell (lit "rm -rf /") st))
     = trace st ++ [Run (lit "rm -rf /") 45]
  /\ In (Run (lit "rm -rf /") 45)
        (trace (snd (handle_query wipe_api ok_shell (lit "clean my disk") st))).
Proof.
  cbv zeta.
  split;
    [exact (reach_query dead_api ok_shell (lit "toggle safety")
              (reach_init default_settings false false (lit "kali")
                          (lit "2024-01-01 00:00:00") (lit "Linux") [])) |].
  split; [exact rm_rf_dangerous |].
  split; [vm_compute; reflexivity |].
  vm_compute. auto 10.
Qed.

(** C2, as amended: for a command that matches a danger pattern, the
    executor starts no subprocess in any state in which safety checks are
    on - it returns the refusal and leaves the store as it is; in a state in
    which they are off (after [toggle safety]) the gate is skipped and the
    command is run. *)
Theorem danger_blocked_while_checks_on (shell : str -> Z -> finished)
        (command : str) (st : store) :
  matches_danger command ->
  (safety_checks st = true ->
   _execute_command shell command st = (Value (blocked_text, 1%Z), st))
  /\ (safety_checks st = false ->
      trace (snd (_execute_command shell command st))
      = trace st ++ [Run command (security_timeout (config st))]).
Proof.
  intros Hd. split; intros Hs.
  - apply execute_blocked; assumption.
  - rewrite (execute_allowed shell (matches_danger_nonempty Hd)
                             (allowed_unchecked command st Hs)).
    reflexivity.
Qed.

Lemma blocked_follow_up (command : str) :
  follow_up_text command blocked_text 1
  = lit "Command executed:\n```bash\n" ++ command
      ++ lit "\n```\nExit code: 1\nOutput:\nCommand blocked by safety system".
Proof.
  reflexivity.
Qed.




(** The scenario of the specification: the model proposes [echo hi] in a
    fenced block and no confirmation is required; the command is run and
    the response ends with the success marker. *)
Example echo_hi_runs :
  let st := fresh (with_confirmation false default_settings) [] in
  let r := handle_query echo_api echo_shell (lit "say hi") st in
  fst r = Value (lit "```bash\necho hi\n```\n\nCommand executed successfully:\n```bash\necho hi\n```")
  /\ trace (snd r)
     = trace st
         ++ [ Post (ollama_endpoint (config st))
                   (context st ++ [Turn (lit "user") (lit "say hi")]) 30;
              Run (lit "echo hi") 45;
              LogInfo (lit "Command executed (exit 0): echo hi\nOutput:\nhi\n") ].
Proof. split; vm_compute; reflexivity. Qed.

(** ** Loading the configuration *)

Section LoadConfig.

Import Config.

Lemma lookup_app (k : str) (x y : dict) :
  lookup k (x ++ y)
  = match lookup k x with Some v => Some v | None => lookup k y end.
Proof.
  induction x as [| [k' v] x IH]; simpl; [reflexivity |].
  destruct (str_eqb k k'); [reflexivity | assumption].
Qed.

Lemma lookup_overridden (k : str) (a b : dict) :
  lookup k (map (fun kv => (fst kv, match lookup (fst kv) b with
                                    | Some v => v
                                    | None => snd kv
                                    end)) a)
  = match lookup k a with
    | Some va => Some match lookup k b with Some v => v | None => va end
    | None => None
    end.
Proof.
  induction a as [| [k' v] a IH]; simpl; [reflexivity |].
  destruct (str_eqb k k') eqn:E; [| assumption].
  apply str_eqb_eq in E. subst k'. reflexivity.
Qed.

Lemma lookup_added (k : str) (a b : dict) :
  lookup k a = None ->
  lookup k (filter (fun kv => negb (truthy (lookup (fst kv) a))) b)
  = lookup k b.
Proof.
  intros Ha. induction b as [| [k' v] b IH]; simpl; [reflexivity |].
  destruct (str_eqb k k') eqn:E.
  - pose proof E as E'. apply str_eqb_eq in E'. subst k'.
    rewrite Ha. simpl. rewrite E. reflexivity.
  - destruct (negb (truthy (lookup k' a))); simpl; [rewrite E |]; assumption.
Qed.

(** The union takes a key from the file when the file has it, and from
    the defaults otherwise. *)
Lemma lookup_merge (k : str) (a b : dict) :
  lookup k (merge a b)
  = match lookup k b with Some v => Some v | None => lookup k a end.
Proof.
  unfold merge. rewrite lookup_app, lookup_overridden.
  destruct (lookup k a) as [va |] eqn:Ha.
  - destruct (lookup k b); reflexivity.
  - rewrite lookup_added by assumption. destruct (lookup k b); reflexivity.
Qed.

(** The defaults hold the documented value of every key the core reads. *)
Lemma default_settings_loaded :
  settings_of default_config = Some default_settings.
Proof. reflexivity. Qed.

(** C9, counterexample.  A file that gives the [security] section with
    one key only: the other keys of the section are absent after loading,
    not at their defaults.  A file that gives [memory_size] as a string:
    the string is kept, not replaced by the default 10. *)
Lemma config_keys_without_default :
  let partial :=
    Parsed (JDict [(lit "security", JDict [(lit "max_output", JInt 100)])]) in
  let invalid :=
    Parsed (JDict [(lit "context", JDict [(lit "memory_size", JStr (lit "ten"))])]) in
  getitem2 (lit "security") (lit "timeout") (JDict default_config) = Some (JInt 45)
  /\ getitem2 (lit "security") (lit "timeout")
              (JDict (fst (_load_config partial))) = None
  /\ getitem2 (lit "context") (lit "memory_size") (JDict default_config)
     = Some (JInt 10)
  /\ getitem2 (lit "context") (lit "memory_size")
              (JDict (fst (_load_config invalid))) = Some (JStr (lit "ten"))
  /\ settings_of (fst (_load_config partial)) = None
  /\ settings_of (fst (_load_config invalid)) = None.
Proof. cbv zeta. repeat split. Qed.

(** C9, as amended: loading never fails.  A missing file, a file that
    cannot be read or decoded, and a document that is not an object all
    give the defaults.  For a document that is an object, every key the
    core reads takes its default when the file does not give the key's
    section, and keeps the value the file gives it, whatever that value
    is, when the file gives the key. *)
Theorem load_config_defaults (file : config_file) :
  exists cfg log,
    _load_config file = (cfg, log)
    /\ ((forall d, file <> Parsed (JDict d)) -> cfg = default_config)
    /\ forall section key, In (section, key) consumed_keys ->
         getitem2 section key (JDict default_config) <> None
         /\ (forall d, file = Parsed (JDict d) -> lookup section d = None ->
               getitem2 section key (JDict cfg)
               = getitem2 section key (JDict default_config))
         /\ (forall d v, file = Parsed (JDict d) ->
               getitem2 section key (JDict d) = Some v ->
               getitem2 section key (JDict cfg) = Some v).
Proof.
  exists (fst (_load_config file)), (snd (_load_config file)).
  split; [apply surjective_pairing |].
  split.
  { intros H. destruct file as [| e | []]; try reflexivity.
    exfalso. eapply H. reflexivity. }
  intros section key Hin. split.
  { simpl in Hin.
    repeat (destruct Hin as [[= <- <-] | Hin]; [discriminate |]).
    destruct Hin. }
  split.
  - intros d -> Hd.
    change (fst (_load_config (Parsed (JDict d)))) with (merge default_config d).
    unfold getitem2. cbn [getitem]. rewrite lookup_merge, Hd. reflexivity.
  - intros d v -> Hv.
    change (fst (_load_config (Parsed (JDict d)))) with (merge default_config d).
    unfold getitem2 in *. cbn [getitem] in *. rewrite lookup_merge.
    destruct (lookup section d); [assumption | discriminate].
Qed.

End LoadConfig.

(** ** Command extraction *)

Section FencedBlock.

Import Re.

Lemma keep_outside (c : ascii) (r : option found) : keep false c r = r.
Proof. destruct r as [[g rest] |]; reflexivity. Qed.

Lemma lazy_unfold (fl : flags) (ing : bool) (a : atom)
      (k : str -> option found) (s : str) :
  lazy fl ing a k s
  = match k s with
    | Some r => Some r
    | None =>
        match s with
        | c :: s' => if atom_ok fl a c then keep ing c (lazy fl ing a k s') else None
        | [] => None
        end
    end.
Proof. destruct s; reflexivity. Qed.

(** Case-sensitive literal items match as [startswith] does. *)
Lemma match_word (fl : flags) (w : str) (rest : list item) (s : str) :
  IGNORECASE fl = false ->
  match_here fl (word w ++ rest) false s
  = if startswith w s
    then match_here fl rest false (skipn (List.length w) s)
    else None.
Proof.
  intros Hfl. revert s. induction w as [| x w IH]; intros s; [reflexivity |].
  simpl. destruct s as [| y s]; [reflexivity |].
  simpl. rewrite Hfl, keep_outside, IH, (Ascii.eqb_sym y x).
  destruct (Ascii.eqb x y); reflexivity.
Qed.

(** A lazy run of any character in front of a literal stops at the first
    occurrence of the literal. *)
Lemma lazy_until_word (w : str) (s : str) :
  startswith w [] = false ->
  lazy dotall true Dot (match_here dotall (Close :: word w) true) s
  = match find w s with
    | Some n => Some (firstn n s, skipn (n + List.length w) s)
    | None => None
    end.
Proof.
  intros Hw.
  assert (Hk : forall t, match_here dotall (Close :: word w) true t
                         = if startswith w t
                           then Some ([], skipn (List.length w) t) else None).
  { intros t. simpl. rewrite <- (app_nil_r (word w)).
    rewrite match_word by reflexivity. reflexivity. }
  induction s as [| c s IH].
  - rewrite lazy_unfold, Hk. simpl find. rewrite Hw. reflexivity.
  - rewrite lazy_unfold, Hk. simpl find.
    destruct (startswith w (c :: s)); [reflexivity |].
    simpl atom_ok. cbv iota. rewrite IH.
    destruct (find w s) as [n |]; reflexivity.
Qed.

Lemma fence_compiles :
  compile (raw "```bash\n(.*?)\n```") = Some fence_items.
Proof. reflexivity. Qed.

(** The fence pattern at one position. *)
Lemma match_fence (s : str) :
  match_here dotall fence_items false s
  = if startswith fence_open s
    then match find fence_close (skipn 8 s) with
         | Some k => Some (firstn k (skipn 8 s), skipn (k + 4) (skipn 8 s))
         | None => None
         end
    else None.
Proof.
  unfold fence_items. rewrite match_word by reflexivity.
  destruct (startswith fence_open s); [| reflexivity].
  change (List.length fence_open) with 8.
  change (match_here dotall ([Open; Tok Dot Lazy0; Close] ++ word fence_close)
                     false (skipn 8 s))
    with (lazy dotall true Dot
               (match_here dotall (Close :: word fence_close) true)
               (skipn 8 s)).
  rewrite lazy_until_word by reflexivity. reflexivity.
Qed.

Lemma scan_unfold (fl : flags) (its : list item) (s : str) :
  scan fl its s
  = match match_here fl its false s with
    | Some r => Some r
    | None => match s with [] => None | _ :: s' => scan fl its s' end
    end.
Proof. destruct s; reflexivity. Qed.

Lemma find_none_tail (w : str) (c : ascii) (s : str) :
  find w (c :: s) = None -> find w s = None.
Proof.
  simpl. destruct (startswith w (c :: s)); [discriminate |].
  destruct (find w s); [discriminate | reflexivity].
Qed.

Lemma find_none_skipn (w : str) (n : nat) (s : str) :
  find w s = None -> find w (skipn n s) = None.
Proof.
  revert s. induction n as [| n IH]; intros s H; [assumption |].
  destruct s as [| c s]; [assumption |].
  simpl. apply IH. apply find_none_tail with c. assumption.
Qed.

(** Without a closing fence after the first position, no position
    matches. *)
Lemma scan_without_close (s : str) :
  find fence_close (skipn 8 s) = None -> scan dotall fence_items s = None.
Proof.
  induction s as [| c s IH]; intros H.
  - reflexivity.
  - assert (Hm : match_here dotall fence_items false (c :: s) = None).
    { rewrite match_fence, H. destruct (startswith fence_open (c :: s)); reflexivity. }
    rewrite scan_unfold, Hm. apply IH.
    replace (skipn 8 s) with (skipn 1 (skipn 8 (c :: s)))
      by (rewrite skipn_skipn; reflexivity).
    apply find_none_skipn. assumption.
Qed.

Lemma find_cons (w : str) (c : ascii) (s : str) :
  find w (c :: s)
  = if startswith w (c :: s) then Some 0 else option_map S (find w s).
Proof. reflexivity. Qed.

(** The leftmost match of the fence pattern is the first fenced block. *)
Lemma scan_fence (s : str) :
  option_map fst (scan dotall fence_items s) = fenced_block s.
Proof.
  unfold fenced_block. fold fence_open. fold fence_close.
  induction s as [| c s IH]; [reflexivity |].
  rewrite scan_unfold, match_fence, find_cons.
  destruct (startswith fence_open (c :: s)) eqn:Hs.
  - cbv zeta. change (0 + 8) with 8.
    destruct (find fence_close (skipn 8 (c :: s))) as [k |] eqn:Hk;
      [reflexivity |].
    rewrite scan_without_close; [reflexivity |].
    replace (skipn 8 s) with (skipn 1 (skipn 8 (c :: s)))
      by (rewrite skipn_skipn; reflexivity).
    apply find_none_skipn. assumption.
  - rewrite IH. destruct (find fence_open s) as [i |]; reflexivity.
Qed.

Lemma startswith_app (a b s : str) :
  startswith (a ++ b) s = true -> startswith a s = true.
Proof.
  revert s. induction a as [| x a IH]; intros s H; [reflexivity |].
  destruct s as [| y s]; [discriminate |].
  simpl in *. apply andb_true_iff in H. destruct H as [H1 H2].
  rewrite H1. simpl. apply IH. assumption.
Qed.

Lemma find_app_none (a b s : str) :
  find a s = None -> find (a ++ b) s = None.
Proof.
  induction s as [| c s IH]; simpl.
  - destruct (startswith a []) eqn:Ha; [discriminate |]. intros _.
    destruct (startswith (a ++ b) []) eqn:Hab; [| reflexivity].
    apply startswith_app in Hab. congruence.
  - destruct (startswith a (c :: s)) eqn:Ha; [discriminate |].
    destruct (find a s); [discriminate |]. intros _.
    rewrite IH by reflexivity.
    destruct (startswith (a ++ b) (c :: s)) eqn:Hab; [| reflexivity].
    apply startswith_app in Hab. congruence.
Qed.

(** The test ["```bash" in response] never hides a fenced block. *)
Lemma guarded_search (response : str) :
  (if contains (lit "```bash") response
   then search "```bash\n(.*?)\n```" response dotall
   else None)
  = fenced_block response.
Proof.
  unfold search. rewrite fence_compiles, scan_fence.
  unfold contains.
  destruct (find (lit "```bash") response) eqn:Hf; [reflexivity |].
  unfold fenced_block.
  change (lit "```bash\n") with (lit "```bash" ++ [nl]).
  rewrite find_app_none by assumption. reflexivity.
Qed.

End FencedBlock.

Lemma slice_from_nonneg {A} (i : Z) (l : list A) :
  (0 <= i)%Z -> slice_from i l = skipn (Z.to_nat i) l.
Proof.
  intros Hi. unfold slice_from, clamp, len.
  destruct (Z.ltb_spec i 0) as [H | _]; [lia |].
  destruct (Z.le_ge_cases i (Z.of_nat (List.length l))) as [H | H].
  - rewrite Z.min_l by assumption. reflexivity.
  - rewrite Z.min_r by assumption. rewrite Nat2Z.id.
    rewrite !skipn_all2; trivial; lia.
Qed.

(** C7, counterexample.  A marked line that is not the first line is not
    found; and when the text starts with the marker, what is extracted runs
    to the end of the text, not to the end of the line. *)
Lemma prompt_marker_is_a_text_prefix :
  _extract_command (lit "Run this:\n$ ls") = None
  /\ spec_extract_command (lit "Run this:\n$ ls") = Some (lit "ls")
  /\ _extract_command (lit "$ ls\nthen read the listing")
     = Some (lit "ls\nthen read the listing")
  /\ spec_extract_command (lit "$ ls\nthen read the listing") = Some (lit "ls").
Proof. repeat split; vm_compute; reflexivity. Qed.

(** C7, as amended: command extraction, in this order.  If the text holds
    ["```bash\n"] and, after its first occurrence, ["\n```"], the text
    between that opening and the first closing after it is extracted,
    stripped.  Otherwise, if the whole text starts with ["$ "], everything
    after the marker, to the end of the text, is extracted, stripped.
    Otherwise nothing is extracted.  And when nothing, or the empty command,
    is extracted, [handle_query] returns the model's text as it is: nothing
    is printed, read or run after the model request. *)
Theorem extract_command_order (api : list turn -> reply)
        (shell : str -> Z -> finished) (u : str) (st : store) :
  (forall response,
      _extract_command response
      = match fenced_block response with
        | Some inner => Some (strip inner)
        | None =>
            if startswith (lit "$ ") response
            then Some (strip (skipn 2 response))
            else None
        end)
  /\ (intent_of u = None ->
      let response := response_of (api (context (received u st))) in
      (_extract_command response = None \/ _extract_command response = Some []) ->
      handle_query api shell u st = (Value response, answered_by_model api u st)
      /\ trace (answered_by_model api u st)
         = trace st ++ response_events (config st) (context (received u st))
                                       (api (context (received u st)))).
Proof.
  split.
  - intros response. unfold _extract_command.
    rewrite guarded_search, slice_from_nonneg by lia. reflexivity.
  - intros Hi response Hx. split; [| reflexivity].
    rewrite handle_query_model by assumption. cbv zeta. fold response.
    destruct Hx as [-> | ->]; reflexivity.
Qed.

(** ** The theorems at concrete inputs *)

(** C1 at concrete inputs: [rm -rf /] is refused with the store untouched; [ls] is allowed on the answer [ Y ]. *)
Lemma is_safe_decision_witness :
  _is_safe (lit "rm -rf /") (fresh default_settings [lit "y"])
  = (Value false, fresh default_settings [lit "y"])
  /\ fst (_is_safe (lit "ls") (fresh default_settings [lit " Y "; lit "n"]))
     = Value true.
Proof.
  pose proof (is_safe_decision (lit "rm -rf /") (fresh default_settings [lit "y"]))
    as (Hdanger & _).
  pose proof (is_safe_decision (lit "ls")
                               (fresh default_settings [lit " Y "; lit "n"]))
    as (_ & _ & Hask & _).
  split.
  - apply Hdanger. dangerous_by "rm\s+-rf\s+"%string.
  - assert (Hsafe : ~ matches_danger (lit "ls")).
    { harmless. }
    destruct (Hask Hsafe eq_refl (lit " Y ") [lit "n"] eq_refl) as [Hrun _].
    rewrite Hrun. reflexivity.
Defined.

(** C2 (amended) at a concrete input: in the fresh session [rm -rf /] is refused. *)
Lemma danger_blocked_while_checks_on_witness :
  _execute_command ok_shell (lit "rm -rf /") (fresh default_settings [lit "y"])
  = (Value (blocked_text, 1%Z), fresh default_settings [lit "y"]).
Proof.
  apply (@danger_blocked_while_checks_on
           ok_shell (lit "rm -rf /") (fresh default_settings [lit "y"])).
  - dangerous_by "rm\s+-rf\s+"%string.
  - reflexivity.
Defined.




(** C7 (amended) at a concrete input: an answer without a command comes back as it is. *)
Lemma extract_command_order_witness :
  handle_query (fun _ => Content (lit "Use the file manager."))
               ok_shell (lit "how do I copy a file")
               (fresh default_settings [])
  = (Value (lit "Use the file manager."),
     answered_by_model (fun _ => Content (lit "Use the file manager."))
                       (lit "how do I copy a file") (fresh default_settings [])).
Proof.
  pose proof (extract_command_order
                (fun _ => Content (lit "Use the file manager."))
                ok_shell (lit "how do I copy a file")
                (fresh default_settings [])) as (_ & Hq).
  apply Hq.
  - vm_compute. reflexivity.
  - left. vm_compute. reflexivity.
Defined.

(** C8 (amended) at a concrete input: the backend is down, with the default memory size. *)
Lemma model_fault_recovered_witness :
  exists st',
    handle_query dead_api ok_shell (lit "hello") (fresh default_settings [])
    = (Value fallback_text, st')
    /\ exists before,
         context st' = before ++ [Turn (lit "user") (lit "hello");
                                  Turn (lit "assistant") fallback_text].
Proof.
  destruct (@model_fault_recovered
              dead_api ok_shell (lit "hello") (lit "Connection refused")
              (fresh default_settings []))
    as (st' & Hq & _ & _ & Hctx).
  - vm_compute. reflexivity.
  - reflexivity.
  - exists st'. split; [exact Hq |]. apply Hctx. simpl. lia.
Defined.

(** C9 (amended) at a concrete input: a file that gives the [context] section only. *)
Lemma load_config_defaults_witness :
  exists cfg log,
    Config._load_config
      (Config.Parsed
         (Config.JDict [(lit "context",
                         Config.JDict [(lit "memory_size", Config.JInt 4)])]))
    = (cfg, log)
    /\ Config.getitem2 (lit "security") (lit "timeout") (Config.JDict cfg)
       = Some (Config.JInt 45)
    /\ Config.getitem2 (lit "context") (lit "memory_size") (Config.JDict cfg)
       = Some (Config.JInt 4).
Proof.
  destruct (load_config_defaults
              (Config.Parsed
                 (Config.JDict [(lit "context",
                                 Config.JDict [(lit "memory_size", Config.JInt 4)])])))
    as (cfg & log & Hl & _ & Hk).
  exists cfg, log. split; [exact Hl |]. split.
  - destruct (Hk (lit "security") (lit "timeout")) as (_ & Hdef & _).
    { simpl. auto 10. }
    rewrite (Hdef _ eq_refl) by reflexivity. reflexivity.
  - destruct (Hk (lit "context") (lit "memory_size")) as (_ & _ & Hfile).
    { simpl. auto 10. }
    apply (Hfile _ _ eq_refl). reflexivity.
Defined.


(** * Further properties of the code *)

(** ** The context store, beyond the bound *)

(** The scenario of a run of appends, at a concrete input. *)
Lemma history_bounded_witness :
  exists st',
    add_all [Turn (lit "user") (lit "a"); Turn (lit "assistant") (lit "b");
             Turn (lit "user") (lit "c")]
            (fresh (with_memory_size 2 default_settings) [])
    = (Value tt, st')
    /\ (len (context st') <= 2 + 1)%Z.
Proof.
  destruct (@history_bounded
              2 (Turn (lit "system")
                      (system_prompt (lit "2024-01-01 00:00:00") (lit "kali")
                                     (lit "Linux")))
              [Turn (lit "user") (lit "a"); Turn (lit "assistant") (lit "b");
               Turn (lit "user") (lit "c")]
              (fresh (with_memory_size 2 default_settings) []))
    as (st' & Hrun & _ & Hlen & _).
  - lia.
  - reflexivity.
  - reflexivity.
  - exists st'. split; [exact Hrun | exact Hlen].
Defined.

Lemma appended_first (m : Z) (sys t : turn) (rest : list turn) :
  exists rest', appended m (sys :: rest) t = sys :: rest'.
Proof.
  unfold appended. simpl app.
  destruct (len (sys :: rest ++ [t]) >? m + 1)%Z; simpl; eauto.
Qed.

(** Whatever [memory_size] is - zero and negative values included -
    [_add_to_history] returns normally, changes nothing but the
    conversation, keeps the first turn of a non-empty conversation in
    place, and brings in no turn other than the new one. *)
Theorem add_to_history_keeps_first (r c : str) (st : store)
        (sys : turn) (rest : list turn) :
  context st = sys :: rest ->
  exists rest',
    _add_to_history r c st = (Value tt, set_context (sys :: rest') st)
    /\ (forall t, In t rest' -> t = sys \/ In t rest \/ t = Turn r c).
Proof.
  intros Hctx.
  rewrite (add_to_history_appended (m := memory_size (config st))) by reflexivity.
  rewrite Hctx.
  destruct (appended_first (memory_size (config st)) sys (Turn r c) rest)
    as [rest' Hr].
  exists rest'. rewrite Hr. split; [reflexivity |].
  intros t Ht.
  assert (Hin : In t (appended (memory_size (config st)) (sys :: rest) (Turn r c))).
  { rewrite Hr. right. assumption. }
  apply in_appended in Hin. destruct Hin as [[<- | Hin] | Hin]; auto.
Qed.

Lemma add_to_history_keeps_first_witness :
  exists rest',
    _add_to_history (lit "user") (lit "hi")
                    (fresh (with_memory_size (-3) default_settings) [])
    = (Value tt,
       set_context
         (Turn (lit "system")
               (system_prompt (lit "2024-01-01 00:00:00") (lit "kali")
                              (lit "Linux")) :: rest')
         (fresh (with_memory_size (-3) default_settings) [])).
Proof.
  destruct (@add_to_history_keeps_first
              (lit "user") (lit "hi")
              (fresh (with_memory_size (-3) default_settings) [])
              (Turn (lit "system")
                    (system_prompt (lit "2024-01-01 00:00:00") (lit "kali")
                                   (lit "Linux")))
              [])
    as (rest' & Hrun & _).
  - reflexivity.
  - exists rest'. exact Hrun.
Defined.

(** ** The gate and the executor, in every state *)

Lemma execute_cases (shell : str -> Z -> finished) (command : str) (st : store) :
  executed shell command st (_execute_command shell command st).
Proof.
  destruct command as [| c0 command'] eqn:Ecmd.
  { apply exec_nothing. reflexivity. }
  rewrite <- Ecmd.
  assert (Hne : command <> []) by (rewrite Ecmd; discriminate).
  clear Ecmd c0 command'.
  destruct (safety_checks st) eqn:Hs.
  2:{ rewrite (execute_allowed shell Hne (allowed_unchecked command st Hs)).
      apply exec_ran; auto using allowed_unchecked. }
  destruct (danger_dec command) as [Hd | Hd].
  { rewrite execute_blocked by assumption. apply exec_vetoed; assumption. }
  destruct (require_confirmation (config st)) eqn:Hc.
  2:{ rewrite (execute_allowed shell Hne (@allowed_unconfirmed command st Hs Hd Hc)).
      apply exec_ran; auto using allowed_unconfirmed. }
  destruct (stdin st) as [| answer rest] eqn:Hin.
  { rewrite execute_eof by assumption. apply exec_eof; assumption. }
  destruct (affirmative answer) eqn:Hy.
  - rewrite (execute_allowed
               shell Hne
               (@allowed_confirmed command st answer rest Hs Hd Hc Hin Hy)).
    apply exec_ran; [assumption |].
    apply (@allowed_confirmed command st answer rest); assumption.
  - rewrite (@execute_denied shell command answer rest st) by assumption.
    apply (@exec_declined shell command st answer rest); assumption.
Qed.

Lemma added_app (st st' : store) (new : list event) :
  trace st' = trace st ++ new -> added st st' = new.
Proof.
  intros H. unfold added. rewrite H, skipn_app, skipn_all, Nat.sub_diag.
  reflexivity.
Qed.

Lemma allowed_effect (command : str) (st st1 : store) :
  allowed command st st1 ->
  context st1 = context st /\ safety_checks st1 = safety_checks st
  /\ same_setup st st1 /\ read_at_most_one st st1
  /\ (trace st1 = trace st /\ stdin st1 = stdin st
      \/ trace st1 = trace st ++ prompt_events command).
Proof.
  unfold same_setup, read_at_most_one.
  intros [Hs | Hs Hd Hc | answer rest Hs Hd Hc Hin Hy]; simpl; auto 15.
  repeat split; auto. right. exists answer. assumption.
Qed.

(** The executor, whatever happens - refusal, run, time-out or an exception
    at the prompt - leaves the conversation, the safety flag, the
    configuration and the session metadata as they are.  It reads at most
    one console line, and only after prompting; it adds to the record of
    effects at most one prompt and at most one subprocess, and removes
    nothing from it. *)
Theorem execute_frame (shell : str -> Z -> finished) (command : str) (st : store) :
  let st' := snd (_execute_command shell command st) in
  context st' = context st
  /\ safety_checks st' = safety_checks st
  /\ same_setup st st'
  /\ read_at_most_one st st'
  /\ trace st' = trace st ++ added st st'
  /\ count is_run (added st st') <= 1
  /\ count is_input (added st st') <= 1
  /\ (count is_input (added st st') = 0 -> stdin st' = stdin st).
Proof.
  cbv zeta.
  assert (Hgen : forall st' new,
             context st' = context st -> safety_checks st' = safety_checks st ->
             same_setup st st' -> read_at_most_one st st' ->
             trace st' = trace st ++ new ->
             count is_run new <= 1 -> count is_input new <= 1 ->
             (count is_input new = 0 -> stdin st' = stdin st) ->
             context st' = context st
             /\ safety_checks st' = safety_checks st
             /\ same_setup st st'
             /\ read_at_most_one st st'
             /\ trace st' = trace st ++ added st st'
             /\ count is_run (added st st') <= 1
             /\ count is_input (added st st') <= 1
             /\ (count is_input (added st st') = 0 -> stdin st' = stdin st)).
  { intros st' new H1 H2 H3 H4 H5 H6 H7 H8.
    rewrite (@added_app st st' new H5). auto 10. }
  destruct (execute_cases shell command st)
    as [Hc | Hne Hs Hd | answer rest Hne Hs Hd Hc Hin Hy | Hne Hs Hd Hc Hin
        | st1 Hne Ha]; simpl snd.
  - apply (Hgen st []); unfold same_setup, read_at_most_one;
      rewrite ?app_nil_r; auto 10.
  - apply (Hgen st []); unfold same_setup, read_at_most_one;
      rewrite ?app_nil_r; auto 10.
  - apply (Hgen _ (prompt_events command));
      unfold same_setup, read_at_most_one; simpl; auto 10.
    + right. exists answer. assumption.
    + discriminate.
  - apply (Hgen _ (prompt_events command));
      unfold same_setup, read_at_most_one; simpl; auto 10.
  - destruct (allowed_effect Ha) as (H1 & H2 & H3 & H4 & [[Ht Hi] | Ht]).
    + apply (Hgen _ [Run command (security_timeout (config st))]);
        simpl; auto. rewrite Ht. reflexivity.
    + apply (Hgen _ (prompt_events command
                       ++ [Run command (security_timeout (config st))]));
        simpl; auto.
      * rewrite Ht, <- app_assoc. reflexivity.
      * discriminate.
Qed.

(** A subprocess is started exactly when the gate lets the command through:
    safety checks are off, or the command matches no danger pattern and is
    either not subject to confirmation or confirmed by the line read. *)
Theorem run_iff_allowed (shell : str -> Z -> finished) (command : str) (st : store) :
  command <> [] ->
  (count is_run (added st (snd (_execute_command shell command st))) = 1
   <-> exists st1, allowed command st st1).
Proof.
  intros Hne0.
  assert (Hno : forall X : Prop,
             safety_checks st = true ->
             (matches_danger command
              \/ (require_confirmation (config st) = true
                  /\ (stdin st = []
                      \/ exists answer rest,
                           stdin st = answer :: rest
                           /\ affirmative answer = false))) ->
             (exists st1, allowed command st st1) -> X).
  { intros X Hs Hcase [st1 Ha].
    destruct Ha as [Hs' | Hs' Hd Hc | answer rest Hs' Hd Hc Hin Hy];
      [congruence | |].
    - destruct Hcase as [Hd' | [Hc' _]]; [contradiction | congruence].
    - destruct Hcase as [Hd' | [_ [Hin' | (a & r & Hin' & Hn)]]];
        [contradiction | congruence |].
      rewrite Hin in Hin'. injection Hin' as <- <-. congruence. }
  destruct (execute_cases shell command st)
    as [Hc | Hne Hs Hd | answer rest Hne Hs Hd Hc Hin Hy | Hne Hs Hd Hc Hin
        | st1 Hne Ha]; simpl snd.
  - contradiction.
  - rewrite (@added_app st st []) by (rewrite app_nil_r; reflexivity).
    split; [discriminate | apply Hno; auto].
  - rewrite (@added_app st _ (prompt_events command)) by reflexivity.
    split; [discriminate | apply Hno; eauto 10].
  - rewrite (@added_app st _ (prompt_events command)) by reflexivity.
    split; [discriminate | apply Hno; auto].
  - split; [eauto |]. intros _.
    destruct (allowed_effect Ha) as (_ & _ & _ & _ & [[Ht _] | Ht]).
    + rewrite (@added_app st _ [Run command (security_timeout (config st))]);
        [reflexivity | simpl; rewrite Ht; reflexivity].
    + rewrite (@added_app st _ (prompt_events command
                                  ++ [Run command (security_timeout (config st))]));
        [reflexivity | simpl; rewrite Ht, <- app_assoc; reflexivity].
Qed.

Lemma run_iff_allowed_witness :
  count is_run
        (added (fresh default_settings [lit "y"])
               (snd (_execute_command ok_shell (lit "ls")
                                      (fresh default_settings [lit "y"]))))
  = 1.
Proof.
  apply (@run_iff_allowed ok_shell (lit "ls") (fresh default_settings [lit "y"])).
  - discriminate.
  - eexists. apply (@allowed_confirmed (lit "ls") _ (lit "y") []).
    + reflexivity.
    + harmless.
    + reflexivity.
    + reflexivity.
    + reflexivity.
Defined.

(** ** One user turn, in every state *)

Lemma count_app (p : event -> bool) (a b : list event) :
  count p (a ++ b) = count p a + count p b.
Proof. unfold count. rewrite filter_app, length_app. reflexivity. Qed.

Lemma same_setup_refl (st : store) : same_setup st st.
Proof. unfold same_setup. auto 10. Qed.

Lemma same_setup_trans (a b c : store) :
  same_setup a b -> same_setup b c -> same_setup a c.
Proof.
  unfold same_setup.
  intros (H1 & H2 & H3 & H4 & H5 & H6) (K1 & K2 & K3 & K4 & K5 & K6).
  repeat split; congruence.
Qed.

(** The events of the executor, in shape. *)
Lemma execute_effect (shell : str -> Z -> finished) (command : str) (st : store) :
  exists new,
    let st' := snd (_execute_command shell command st) in
    trace st' = trace st ++ new
    /\ (new = [] \/ new = prompt_events command
        \/ new = [Run command (security_timeout (config st))]
        \/ new = prompt_events command
                   ++ [Run command (security_timeout (config st))])
    /\ context st' = context st
    /\ safety_checks st' = safety_checks st
    /\ same_setup st st'
    /\ read_at_most_one st st'.
Proof.
  cbv zeta.
  destruct (execute_cases shell command st)
    as [Hc | Hne Hs Hd | answer rest Hne Hs Hd Hc Hin Hy | Hne Hs Hd Hc Hin
        | st1 Hne Ha]; simpl snd.
  - exists []. rewrite app_nil_r. unfold read_at_most_one.
    auto 10 using same_setup_refl.
  - exists []. rewrite app_nil_r. unfold read_at_most_one.
    auto 10 using same_setup_refl.
  - exists (prompt_events command). unfold read_at_most_one. simpl.
    repeat split; auto using same_setup_refl. right. exists answer. assumption.
  - exists (prompt_events command). unfold read_at_most_one. simpl.
    repeat split; auto using same_setup_refl.
  - destruct (allowed_effect Ha) as (H1 & H2 & H3 & H4 & [[Ht Hi] | Ht]).
    + exists [Run command (security_timeout (config st))]. simpl.
      rewrite Ht. auto 10.
    + exists (prompt_events command
                ++ [Run command (security_timeout (config st))]). simpl.
      rewrite Ht, <- app_assoc. auto 10.
Qed.

(** The effect of one call of [handle_query], whichever way it goes. *)
Lemma handle_query_effect (api : list turn -> reply)
      (shell : str -> Z -> finished) (u : str) (st : store) :
  let st' := snd (handle_query api shell u st) in
  same_setup st st'
  /\ read_at_most_one st st'
  /\ (exists ts,
         context st' = appended_all (memory_size (config st)) (context st)
                                    (Turn (lit "user") u :: ts)
         /\ List.length ts <= 2)
  /\ (exists new,
         trace st' = trace st ++ new
         /\ count is_post new <= 1 /\ count is_run new <= 1
         /\ count is_input new <= 1)
  /\ (safety_checks st' = safety_checks st
      \/ intent_of u = Some ToggleSafety
         /\ safety_checks st' = negb (safety_checks st)).
Proof.
  cbv zeta. destruct (intent_of u) as [i |] eqn:Hi.
  { rewrite (handle_query_special api shell u st Hi).
    assert (Hnew : exists new : list event,
               trace st = trace st ++ new
               /\ count is_post new <= 1 /\ count is_run new <= 1
               /\ count is_input new <= 1).
    { exists []. rewrite app_nil_r. simpl. auto. }
    destruct i; simpl snd; unfold read_at_most_one; simpl;
      (split; [unfold same_setup; simpl; auto 10 |]); (split; [auto |]);
      (split; [exists []; auto |]); (split; [exact Hnew |]); auto. }
  rewrite handle_query_model by assumption. cbv zeta.
  assert (Hpost : forall r,
             count is_post (response_events (config st) (context (received u st)) r) = 1
             /\ count is_run (response_events (config st) (context (received u st)) r) = 0
             /\ count is_input (response_events (config st) (context (received u st)) r) = 0).
  { intros []; repeat split. }
  assert (Hplain :
            same_setup st (answered_by_model api u st)
            /\ read_at_most_one st (answered_by_model api u st)
            /\ (exists ts,
                   context (answered_by_model api u st)
                   = appended_all (memory_size (config st)) (context st)
                                  (Turn (lit "user") u :: ts)
                   /\ List.length ts <= 2)
            /\ (exists new,
                   trace (answered_by_model api u st) = trace st ++ new
                   /\ count is_post new <= 1 /\ count is_run new <= 1
                   /\ count is_input new <= 1)
            /\ (safety_checks (answered_by_model api u st) = safety_checks st
                \/ None = Some ToggleSafety
                   /\ safety_checks (answered_by_model api u st)
                      = negb (safety_checks st))).
  { split; [unfold same_setup; simpl; auto 10 |]. split; [left; reflexivity |].
    split; [eexists [_]; split; [reflexivity | simpl; lia] |].
    split; [| left; reflexivity].
    eexists. split; [reflexivity |].
    destruct (Hpost (api (context (received u st)))) as (-> & -> & ->). lia. }
  destruct (_extract_command (response_of (api (context (received u st)))))
    as [[| c0 command] |]; try exact Hplain.
  clear Hplain.
  pose proof (execute_effect shell (c0 :: command) (answered_by_model api u st))
    as (new & Heff).
  cbv zeta in Heff.
  assert (Hsame : same_setup st (answered_by_model api u st))
    by (unfold same_setup; simpl; auto 10).
  destruct (Hpost (api (context (received u st)))) as (Hp1 & Hp2 & Hp3).
  destruct (_execute_command shell (c0 :: command) (answered_by_model api u st))
    as [[[output returncode] | e] st4];
    simpl snd in Heff;
    destruct Heff as (Ht & Hshape & Hctx & Hsafe & Hset & Hread);
    assert (Hcount : count is_post new = 0 /\ count is_run new <= 1
                     /\ count is_input new <= 1)
      by (destruct Hshape as [-> | [-> | [-> | ->]]]; simpl; auto);
    destruct Hcount as (Hc1 & Hc2 & Hc3);
    cbv iota beta; simpl snd.
  - split; [unfold same_setup in *; simpl in *; intuition congruence |].
    split; [exact Hread |].
    split.
    { eexists [_; _]. split; [| simpl; lia].
      simpl context. rewrite Hctx.
      destruct Hset as (-> & _). reflexivity. }
    split; [| left; exact Hsafe].
    exists (response_events (config st) (context (received u st))
                            (api (context (received u st)))
              ++ new
              ++ [LogInfo (command_result_text (c0 :: command) output returncode)]).
    split.
    { simpl trace. rewrite Ht. simpl trace. rewrite <- !app_assoc. reflexivity. }
    rewrite !count_app, Hp1, Hp2, Hp3, Hc1. unfold count in *. simpl. lia.
  - split; [exact (same_setup_trans Hsame Hset) |]. split; [exact Hread |].
    split.
    { eexists [_]. split; [| simpl; lia]. rewrite Hctx. reflexivity. }
    split; [| left; exact Hsafe].
    exists (response_events (config st) (context (received u st))
                            (api (context (received u st)))
              ++ new).
    split.
    { rewrite Ht. simpl trace. rewrite <- !app_assoc. reflexivity. }
    rewrite !count_app, Hp1, Hp2, Hp3, Hc1. lia.
Qed.

(** One call of [handle_query], whichever way it goes - canned response,
    plain answer, refused or executed command, exception at the prompt:
    the configuration and the session metadata are unchanged; the
    conversation changes by appends only, the user's turn first and at most
    two more; at most one console line is read; at most one model request,
    one prompt and one subprocess are added to the record of effects and
    nothing is removed from it; and the safety flag changes only under the
    toggle phrase. *)
Theorem handle_query_frame (api : list turn -> reply)
        (shell : str -> Z -> finished) (u : str) (st : store) :
  let st' := snd (handle_query api shell u st) in
  same_setup st st'
  /\ read_at_most_one st st'
  /\ (exists ts,
         context st' = appended_all (memory_size (config st)) (context st)
                                    (Turn (lit "user") u :: ts)
         /\ List.length ts <= 2)
  /\ trace st' = trace st ++ added st st'
  /\ count is_post (added st st') <= 1
  /\ count is_run (added st st') <= 1
  /\ count is_input (added st st') <= 1
  /\ (intent_of u <> Some ToggleSafety -> safety_checks st' = safety_checks st).
Proof.
  cbv zeta.
  destruct (handle_query_effect api shell u st)
    as (Hset & Hread & Hctx & (new & Ht & Hp & Hr & Hi) & Hsafe).
  rewrite (@added_app st _ new Ht).
  split; [exact Hset |]. split; [exact Hread |]. split; [exact Hctx |].
  split; [exact Ht |]. split; [exact Hp |]. split; [exact Hr |].
  split; [exact Hi |].
  intros Hn. destruct Hsafe as [Hs | [Hs _]]; [assumption | contradiction].
Qed.

Lemma appended_all_first (m : Z) (ts : list turn) (sys : turn) (rest : list turn) :
  exists rest',
    appended_all m (sys :: rest) ts = sys :: rest'
    /\ ((1 <= m)%Z -> List.length rest <= Z.to_nat m ->
        List.length rest' <= Z.to_nat m).
Proof.
  revert rest. induction ts as [| t ts IH]; intros rest.
  - exists rest. split; [reflexivity | auto].
  - unfold appended_all. simpl fold_left.
    destruct (appended_first m sys t rest) as [r1 Hr1].
    destruct (IH r1) as (rest' & Hrest & Hlen).
    exists rest'. rewrite Hr1. split; [exact Hrest |].
    intros Hm _. apply Hlen; [assumption |].
    rewrite appended_head in Hr1 by assumption. injection Hr1 as <-.
    rewrite last_n_length. lia.
Qed.

(** In every state a session can reach, the conversation starts with the
    system turn built at start-up; and when [memory_size] is at least 1 it
    holds at most [memory_size + 1] turns. *)
Theorem session_invariant (st : store) :
  reachable st ->
  exists rest,
    context st = system_turn st :: rest
    /\ ((1 <= memory_size (config st))%Z ->
        (len (context st) <= memory_size (config st) + 1)%Z).
Proof.
  intros H.
  assert (Hinv : exists rest,
             context st = system_turn st :: rest
             /\ ((1 <= memory_size (config st))%Z ->
                 List.length rest <= Z.to_nat (memory_size (config st)))).
  { induction H as [cfg wsl root user start platform console
                   | st console H IH | st api shell u H IH].
    - exists []. split; [reflexivity | simpl; lia].
    - exact IH.
    - destruct IH as (rest & Hctx & Hlen).
      destruct (handle_query_effect api shell u st)
        as (Hset & _ & (ts & Hts & _) & _).
      rewrite Hctx in Hts.
      destruct (appended_all_first (memory_size (config st))
                                   (Turn (lit "user") u :: ts)
                                   (system_turn st) rest)
        as (rest' & Hr & Hl).
      exists rest'. destruct Hset as (Hcfg & _ & _ & Hu & Hs & Hp).
      unfold system_turn in *. rewrite Hts, Hr, Hcfg, Hu, Hs, Hp.
      split; [reflexivity |]. intros Hm. apply Hl; auto. }
  destruct Hinv as (rest & Hctx & Hlen).
  exists rest. split; [assumption |].
  intros Hm. rewrite Hctx. unfold len. simpl List.length.
  specialize (Hlen Hm). lia.
Qed.

Lemma session_invariant_witness :
  exists rest,
    context (snd (handle_query wipe_api ok_shell (lit "clean my disk")
                               (fresh default_settings [])))
    = system_turn (fresh default_settings []) :: rest.
Proof.
  destruct (@session_invariant
              (snd (handle_query wipe_api ok_shell (lit "clean my disk")
                                 (fresh default_settings []))))
    as (rest & Hctx & _).
  - exact (reach_query wipe_api ok_shell (lit "clean my disk")
             (reach_init default_settings false false (lit "kali")
                         (lit "2024-01-01 00:00:00") (lit "Linux") [])).
  - exists rest. exact Hctx.
Defined.

(** Two toggle phrases in a row restore the safety flag, and leave the
    record of effects as it was. *)
Theorem toggle_twice_restores (api1 api2 : list turn -> reply)
        (shell1 shell2 : str -> Z -> finished) (u1 u2 : str) (st : store) :
  intent_of u1 = Some ToggleSafety -> intent_of u2 = Some ToggleSafety ->
  let st1 := snd (handle_query api1 shell1 u1 st) in
  let st2 := snd (handle_query api2 shell2 u2 st1) in
  safety_checks st1 = negb (safety_checks st)
  /\ safety_checks st2 = safety_checks st
  /\ trace st2 = trace st.
Proof.
  intros H1 H2. cbv zeta.
  rewrite (handle_query_special api1 shell1 u1 st H1). simpl snd.
  rewrite (handle_query_special api2 shell2 u2 _ H2). simpl.
  rewrite negb_involutive. auto.
Qed.

Lemma toggle_twice_restores_witness :
  safety_checks
    (snd (handle_query dead_api ok_shell (lit "toggle safety")
            (snd (handle_query dead_api ok_shell (lit "Toggle Safety")
                               (fresh default_settings [])))))
  = true.
Proof.
  apply (@toggle_twice_restores
           dead_api dead_api ok_shell ok_shell
           (lit "Toggle Safety") (lit "toggle safety")
           (fresh default_settings [])).
  - vm_compute. reflexivity.
  - vm_compute. reflexivity.
Defined.

(** ** A command that is run, declined, or interrupted *)





(** The console is at its end when the confirmation prompt is reached.
    [EOFError] leaves [handle_query]; by then the conversation holds the
    user's turn and the model's answer and no system turn, the command has
    been shown and the prompt written, and no subprocess was started. *)
Theorem prompt_eof_leaves_handle_query (api : list turn -> reply)
        (shell : str -> Z -> finished) (u command : str) (st : store) :
  intent_of u = None ->
  _extract_command (response_of (api (context (received u st)))) = Some command ->
  command <> [] ->
  safety_checks st = true -> ~ matches_danger command ->
  require_confirmation (config st) = true -> stdin st = [] ->
  exists st',
    handle_query api shell u st = (Raised EOFError, st')
    /\ context st' = context (answered_by_model api u st)
    /\ trace st'
       = trace st
           ++ response_events (config st) (context (received u st))
                              (api (context (received u st)))
           ++ prompt_events command.
Proof.
  intros Hi Hx Hne Hs Hd Hc Hin. eexists. split.
  { rewrite handle_query_model by assumption. cbv zeta. rewrite Hx.
    destruct command as [| c0 command]; [congruence |].
    rewrite execute_eof by assumption. reflexivity. }
  split; [reflexivity |]. simpl. rewrite <- !app_assoc. reflexivity.
Qed.

Lemma prompt_eof_leaves_handle_query_witness :
  fst (handle_query echo_api echo_shell (lit "say hi")
                    (fresh default_settings []))
  = Raised EOFError.
Proof.
  destruct (@prompt_eof_leaves_handle_query
              echo_api echo_shell (lit "say hi") (lit "echo hi")
              (fresh default_settings []))
    as (st' & Hq & _).
  - vm_compute. reflexivity.
  - vm_compute. reflexivity.
  - discriminate.
  - reflexivity.
  - harmless.
  - reflexivity.
  - reflexivity.
  - rewrite Hq. reflexivity.
Defined.

(** ** Which answers confirm *)

Lemma lstrip_split (s : str) :
  exists l, s = l ++ lstrip s /\ forallb isspace l = true.
Proof.
  induction s as [| c s IH].
  - exists []. auto.
  - simpl. destruct (isspace c) eqn:E.
    + destruct IH as (l & Hs & Hl). exists (c :: l). simpl.
      rewrite E, <- Hs. auto.
    + exists []. auto.
Qed.

Lemma lstrip_spaces (l s : str) :
  forallb isspace l = true -> lstrip (l ++ s) = lstrip s.
Proof.
  induction l as [| c l IH]; simpl; [reflexivity |].
  intros H. apply andb_true_iff in H. destruct H as [-> H]. auto.
Qed.

Lemma forallb_rev (p : ascii -> bool) (l : str) :
  forallb p (rev l) = forallb p l.
Proof.
  induction l as [| c l IH]; simpl; [reflexivity |].
  rewrite forallb_app, IH. simpl. rewrite andb_true_r. apply andb_comm.
Qed.

Lemma rstrip_split (s : str) :
  exists r, s = rstrip s ++ r /\ forallb isspace r = true.
Proof.
  unfold rstrip. destruct (lstrip_split (rev s)) as (l & Hs & Hl).
  exists (rev l). split.
  - rewrite <- rev_app_distr, <- Hs, rev_involutive. reflexivity.
  - rewrite forallb_rev. assumption.
Qed.

Lemma rstrip_spaces (s r : str) :
  forallb isspace r = true -> rstrip (s ++ r) = rstrip s.
Proof.
  intros H. unfold rstrip. rewrite rev_app_distr, lstrip_spaces; trivial.
  rewrite forallb_rev. assumption.
Qed.

Lemma lower_char_y (c : ascii) :
  lower_char c = "y"%char <-> c = "y"%char \/ c = "Y"%char.
Proof.
  split.
  - destruct c as [[] [] [] [] [] [] [] []]; vm_compute; intros H;
      try discriminate H; auto.
  - intros [-> | ->]; reflexivity.
Qed.

(** The lines that confirm a command are exactly a single [y] or [Y] with
    any white space before and after it. *)
Theorem confirming_answers (command answer : str) (rest : list str) (st : store) :
  ~ matches_danger command -> require_confirmation (config st) = true ->
  stdin st = answer :: rest ->
  (fst (_is_safe command st) = Value true
   <-> exists before c after,
         answer = before ++ c :: after
         /\ forallb isspace before = true /\ forallb isspace after = true
         /\ (c = "y"%char \/ c = "Y"%char)).
Proof.
  intros Hd Hc Hin. rewrite (is_safe_confirmed _ Hd Hc Hin). simpl fst.
  unfold affirmative. split.
  - intros H. injection H as H. apply str_eqb_eq in H.
    destruct (lstrip_split answer) as (l & Ha & Hl).
    destruct (rstrip_split (lstrip answer)) as (r & Hb & Hr).
    fold (strip answer) in Hb.
    destruct (strip answer) as [| c [| c' t]]; try discriminate H.
    injection H as H. apply lower_char_y in H.
    exists l, c, r. rewrite Ha at 1. rewrite Hb. auto.
  - intros (l & c & r & -> & Hl & Hr & Hy).
    assert (Hns : isspace c = false) by (destruct Hy as [-> | ->]; reflexivity).
    unfold strip. rewrite lstrip_spaces by assumption.
    simpl lstrip. rewrite Hns.
    change (c :: r) with ([c] ++ r). rewrite rstrip_spaces by assumption.
    unfold rstrip. simpl. rewrite Hns. simpl.
    destruct Hy as [-> | ->]; reflexivity.
Qed.

Lemma confirming_answers_witness :
  fst (_is_safe (lit "ls") (fresh default_settings [lit "  Y "])) = Value true.
Proof.
  apply (@confirming_answers (lit "ls") (lit "  Y ") []
                             (fresh default_settings [lit "  Y "])).
  - harmless.
  - reflexivity.
  - reflexivity.
  - exists (lit "  "), "Y"%char, (lit " "). auto.
Defined.

(** ** What the danger patterns catch *)

Section IgnoreCase.

Import Re.

Variable fl : flags.
Hypothesis ignoring : IGNORECASE fl = true.





Lemma truthy_keep (ing : bool) (c : ascii) (r : option found) :
  truthy (keep ing c r) = truthy r.
Proof. destruct r as [[g rest] |]; reflexivity. Qed.

Lemma truthy_or_else {A} (x y : option A) :
  truthy (match x with Some r => Some r | None => y end)
  = (truthy x || truthy y)%bool.
Proof. destruct x; reflexivity. Qed.

Lemma star_unfold (ing : bool) (a : atom) (k : str -> option found)
      (c : ascii) (s : str) :
  star fl ing a k (c :: s)
  = if atom_ok fl a c
    then match keep ing c (star fl ing a k s) with
         | Some r => Some r
         | None => k (c :: s)
         end
    else k (c :: s).
Proof. reflexivity. Qed.

Section Continuations.

Variables (ing : bool) (a : atom) (k1 k2 : str -> option found).
Hypothesis same : forall s, truthy (k1 (lower s)) = truthy (k2 s).




End Continuations.




End IgnoreCase.




Section Found.

Import Re.

Variable fl : flags.

Lemma star_ge (ing : bool) (a : atom) (k : str -> option found) (s : str) :
  truthy (k s) = true -> truthy (star fl ing a k s) = true.
Proof.
  intros H. destruct s as [| c s]; [exact H |].
  rewrite star_unfold. destruct (atom_ok fl a c); [| exact H].
  rewrite truthy_or_else, H. apply orb_true_r.
Qed.

Lemma star_run (ing : bool) (a : atom) (k : str -> option found)
      (body s : str) :
  forallb (atom_ok fl a) body = true -> truthy (k s) = true ->
  truthy (star fl ing a k (body ++ s)) = true.
Proof.
  intros Hb Hk. induction body as [| c body IH]; [apply star_ge; exact Hk |].
  simpl in Hb. apply andb_true_iff in Hb. destruct Hb as [Hc Hb].
  simpl app. rewrite star_unfold, Hc, truthy_or_else, truthy_keep, IH by assumption.
  reflexivity.
Qed.

Lemma found_nil (ing : bool) (s : str) :
  truthy (match_here fl [] ing s) = true.
Proof. reflexivity. Qed.

Lemma found_once (a : atom) (r : list item) (ing : bool) (c : ascii) (s : str) :
  atom_ok fl a c = true -> truthy (match_here fl r ing s) = true ->
  truthy (match_here fl (Tok a Once :: r) ing (c :: s)) = true.
Proof. intros Ha Hr. simpl. rewrite Ha, truthy_keep. exact Hr. Qed.

Lemma found_many1 (a : atom) (r : list item) (ing : bool) (c : ascii) (s : str) :
  atom_ok fl a c = true -> truthy (match_here fl r ing s) = true ->
  truthy (match_here fl (Tok a Many1 :: r) ing (c :: s)) = true.
Proof.
  intros Ha Hr. simpl. rewrite Ha, truthy_keep. apply star_ge. exact Hr.
Qed.

Lemma found_many0 (a : atom) (r : list item) (ing : bool) (body s : str) :
  forallb (atom_ok fl a) body = true -> truthy (match_here fl r ing s) = true ->
  truthy (match_here fl (Tok a Many0 :: r) ing (body ++ s)) = true.
Proof. intros Hb Hr. simpl. apply star_run; assumption. Qed.

Lemma scan_found (its : list item) (pre s : str) :
  truthy (match_here fl its false s) = true ->
  truthy (scan fl its (pre ++ s)) = true.
Proof.
  intros H. induction pre as [| c pre IH].
  - simpl app. rewrite scan_unfold, truthy_or_else, H. reflexivity.
  - simpl app. rewrite scan_unfold, truthy_or_else, IH. apply orb_true_r.
Qed.

Lemma search_found (p : string) (its : list item) (pre s : str) :
  compile (raw p) = Some its ->
  truthy (match_here fl its false s) = true ->
  search p (pre ++ s) fl <> None.
Proof.
  intros Hc H. unfold search. rewrite Hc.
  pose proof (scan_found its pre s H) as Hs.
  destruct (scan fl its (pre ++ s)); [discriminate | discriminate Hs].
Qed.

End Found.

(** Proving that a pattern matches a word followed by anything. *)
Ltac found_here :=
  repeat first
    [ apply found_nil
    | apply found_once; [reflexivity |]
    | apply found_many1; [reflexivity |]
    | apply (@found_many0 _ _ _ _ []); [reflexivity |] ].

Ltac vetoed_by p :=
  exists p; split; [simpl; auto 10 |];
  let its := eval vm_compute in (Re.compile (raw p)) in
  match its with
  | Some ?i => apply (@search_found ignorecase p i); [reflexivity |]
  end;
  found_here.

(** A command that holds one of the plain spellings [rm -rf ], [dd if=],
    [>/dev/sd], [chmod 777 ], [mv /], [fdisk /dev/] or [format ] anywhere
    in it is refused by [_is_safe], with the store untouched. *)
Theorem idioms_vetoed (w pre post : str) (st : store) :
  In w triggers ->
  matches_danger (pre ++ w ++ post)
  /\ _is_safe (pre ++ w ++ post) st = (Value false, st).
Proof.
  intros Hin.
  assert (Hd : matches_danger (pre ++ w ++ post)).
  { unfold triggers in Hin. simpl in Hin.
    destruct Hin as [<- | [<- | [<- | [<- | [<- | [<- | [<- | []]]]]]]].
    - vetoed_by "rm\s+-rf\s+"%string.
    - vetoed_by "dd\s+if="%string.
    - vetoed_by ">\s*/dev/sd"%string.
    - vetoed_by "chmod\s+777\s+"%string.
    - vetoed_by "mv\s+/\s*"%string.
    - vetoed_by "fdisk\s+/dev/"%string.
    - vetoed_by "format\s+"%string. }
  split; [assumption | apply is_safe_danger; assumption].
Qed.

Lemma idioms_vetoed_witness :
  _is_safe (lit "sudo " ++ lit "chmod 777 " ++ lit "/etc/passwd")
           (fresh default_settings [lit "y"])
  = (Value false, fresh default_settings [lit "y"]).
Proof.
  apply (@idioms_vetoed (lit "chmod 777 ") (lit "sudo ") (lit "/etc/passwd")
                        (fresh default_settings [lit "y"])).
  unfold triggers. simpl. auto 10.
Defined.

(** The shell function definition [:(){ ... ;};] - with any body that stays
    on one line - is refused wherever it stands in the command. *)
Theorem fork_bomb_vetoed (pre body post : str) (st : store) :
  forallb (fun c => negb (Ascii.eqb c nl)) body = true ->
  matches_danger (pre ++ lit ":(){" ++ body ++ lit ";};" ++ post)
  /\ _is_safe (pre ++ lit ":(){" ++ body ++ lit ";};" ++ post) st
     = (Value false, st).
Proof.
  intros Hb.
  assert (Hd : matches_danger (pre ++ lit ":(){" ++ body ++ lit ";};" ++ post)).
  { exists ":\(\)\{.*;\};"%string. split; [simpl; auto 10 |].
    apply (@search_found
             ignorecase ":\(\)\{.*;\};"
             [Re.Tok (Re.Chr ":") Re.Once; Re.Tok (Re.Chr "(") Re.Once;
              Re.Tok (Re.Chr ")") Re.Once; Re.Tok (Re.Chr "{") Re.Once;
              Re.Tok Re.Dot Re.Many0; Re.Tok (Re.Chr ";") Re.Once;
              Re.Tok (Re.Chr "}") Re.Once; Re.Tok (Re.Chr ";") Re.Once]);
      [reflexivity |].
    do 4 (apply found_once; [reflexivity |]).
    apply found_many0; [exact Hb |].
    found_here. }
  split; [assumption | apply is_safe_danger; assumption].
Qed.

Lemma fork_bomb_vetoed_witness :
  _is_safe (lit "" ++ lit ":(){" ++ lit " :|:& " ++ lit ";};" ++ lit ":")
           (fresh default_settings [lit "y"])
  = (Value false, fresh default_settings [lit "y"]).
Proof.
  apply (@fork_bomb_vetoed (lit "") (lit " :|:& ") (lit ":")
                           (fresh default_settings [lit "y"])).
  reflexivity.
Defined.

(** ** What command extraction returns *)

Lemma lstrip_idem (s : str) : lstrip (lstrip s) = lstrip s.
Proof.
  induction s as [| c s IH]; [reflexivity |].
  simpl. destruct (isspace c) eqn:E; [exact IH |].
  simpl. rewrite E. reflexivity.
Qed.

Lemma rstrip_idem (s : str) : rstrip (rstrip s) = rstrip s.
Proof. unfold rstrip. rewrite rev_involutive, lstrip_idem. reflexivity. Qed.

Lemma lstrip_head (s : str) :
  lstrip s = [] \/ exists c t, lstrip s = c :: t /\ isspace c = false.
Proof.
  induction s as [| c s IH]; [left; reflexivity |].
  simpl. destruct (isspace c) eqn:E; [exact IH |].
  right. exists c, s. auto.
Qed.

Lemma lstrip_keeps_last (l : str) (c : ascii) :
  isspace c = false -> exists l', lstrip (l ++ [c]) = l' ++ [c].
Proof.
  intros Hc. induction l as [| x l IH]; simpl.
  - rewrite Hc. exists []. reflexivity.
  - destruct (isspace x); [exact IH |]. exists (x :: l). reflexivity.
Qed.

(** [strip] is idempotent. *)
Lemma strip_idem (s : str) : strip (strip s) = strip s.
Proof.
  unfold strip.
  assert (H : lstrip (rstrip (lstrip s)) = rstrip (lstrip s)).
  { destruct (lstrip_head s) as [-> | (c & t & -> & Hc)]; [reflexivity |].
    unfold rstrip. simpl rev.
    destruct (@lstrip_keeps_last (rev t) c Hc) as [l' ->].
    rewrite rev_app_distr. simpl. rewrite Hc. reflexivity. }
  rewrite H. apply rstrip_idem.
Qed.

(** A command that [_extract_command] returns has no white space around
    it, and neither has the text that [_generate_response] returns: both
    are fixed points of [strip]. *)
Theorem extracted_is_stripped :
  (forall response command,
      _extract_command response = Some command -> strip command = command)
  /\ (forall api prompt st text,
         fst (_generate_response api prompt st) = Value text ->
         strip text = text).
Proof.
  split.
  - intros response command. unfold _extract_command.
    destruct (if contains (lit "```bash") response
              then Re.search "```bash\n(.*?)\n```" response dotall
              else None) as [g |].
    + intros [= <-]. apply strip_idem.
    + destruct (startswith (lit "$ ") response); [| discriminate].
      intros [= <-]. apply strip_idem.
  - intros api prompt st text. rewrite generate_response_run. simpl fst.
    intros [= <-]. destruct (api (context st)); simpl.
    + apply strip_idem.
    + vm_compute. reflexivity.
Qed.

Lemma extracted_is_stripped_witness :
  strip (lit "ls -la") = lit "ls -la".
Proof.
  apply (proj1 extracted_is_stripped (lit "$   ls -la  ")).
  vm_compute. reflexivity.
Defined.

Lemma startswith_prefix (w rest : str) : startswith w (w ++ rest) = true.
Proof.
  induction w as [| c w IH]; [reflexivity |].
  simpl. rewrite Ascii.eqb_refl. exact IH.
Qed.

(** The first occurrence of a word lies after a text that lacks the word's
    first character. *)
Lemma find_after (h : ascii) (w pre rest : str) :
  ~ In h pre ->
  find (h :: w) (pre ++ (h :: w) ++ rest) = Some (List.length pre).
Proof.
  intros Hpre. induction pre as [| x pre IH].
  - simpl app. rewrite find_cons.
    change (h :: w ++ rest) with ((h :: w) ++ rest).
    rewrite startswith_prefix. reflexivity.
  - change ((x :: pre) ++ (h :: w) ++ rest)
      with (x :: (pre ++ (h :: w) ++ rest)).
    rewrite find_cons.
    assert (Hx : Ascii.eqb h x = false).
    { apply Ascii.eqb_neq. intros ->. apply Hpre. left. reflexivity. }
    assert (Hs : startswith (h :: w) (x :: (pre ++ (h :: w) ++ rest)) = false).
    { simpl. rewrite Hx. reflexivity. }
    rewrite Hs, IH; [reflexivity |]. intros H. apply Hpre. right. assumption.
Qed.

Lemma skipn_length_app {A} (a b : list A) (n : nat) :
  skipn (List.length a + n) (a ++ b) = skipn n b.
Proof. induction a as [| x a IH]; [reflexivity | exact IH]. Qed.

Lemma firstn_length_app {A} (a b : list A) :
  firstn (List.length a) (a ++ b) = a.
Proof. induction a as [| x a IH]; [reflexivity | simpl; rewrite IH; reflexivity]. Qed.

(** A one-line command wrapped in a fenced block is found again: after any
    prose without a backquote, and whatever follows the closing fence,
    extraction gives the command, stripped. *)
Theorem fenced_round_trip (pre command post : str) :
  ~ In "`"%char pre -> ~ In nl command ->
  _extract_command (pre ++ lit "```bash\n" ++ command ++ lit "\n```" ++ post)
  = Some (strip command).
Proof.
  intros Hpre Hcmd. unfold _extract_command.
  rewrite guarded_search. unfold fenced_block.
  change (lit "```bash\n") with ("`"%char :: lit "``bash\n").
  rewrite (@find_after _ _ pre _ Hpre).
  rewrite skipn_length_app.
  change (skipn 8 (("`"%char :: lit "``bash\n")
                     ++ command ++ lit "\n```" ++ post))
    with (command ++ lit "\n```" ++ post).
  change (lit "\n```") with (nl :: lit "```").
  rewrite (@find_after _ _ command _ Hcmd), firstn_length_app. reflexivity.
Qed.

Lemma fenced_round_trip_witness :
  _extract_command (lit "Try this: " ++ lit "```bash\n" ++ lit " nmap -sV host "
                      ++ lit "\n```" ++ lit "\nIt scans the host.")
  = Some (lit "nmap -sV host").
Proof.
  apply (@fenced_round_trip (lit "Try this: ") (lit " nmap -sV host ")
                            (lit "\nIt scans the host.")).
  - intros H. vm_compute in H.
    repeat (destruct H as [H | H]; [discriminate H |]). exact H.
  - intros H. vm_compute in H.
    repeat (destruct H as [H | H]; [discriminate H |]). exact H.
Defined.

(** ** The loop of [main] *)

Section MainLoop.

Variable backend : nat -> list turn -> reply.
Variable shells : nat -> str -> Z -> finished.
Variable elapsed : nat -> str.

Lemma intent_needs_text : intent_of [] = None.
Proof. reflexivity. Qed.

Lemma input_line (prompt line : str) (rest : list str) (st : store) :
  stdin st = line :: rest ->
  input prompt st
  = (Value line, set_stdin rest (set_trace (trace st ++ [Input prompt]) st)).
Proof.
  intros Hin. unfold input, bind, emit, modify, gets, ret. simpl.
  rewrite Hin. reflexivity.
Qed.

Lemma input_eof (prompt : str) (st : store) :
  stdin st = [] ->
  input prompt st = (Raised EOFError, set_trace (trace st ++ [Input prompt]) st).
Proof.
  intros Hin. unfold input, bind, emit, modify, gets, ret. simpl.
  rewrite Hin. reflexivity.
Qed.

(** A blank line is read and nothing else happens. *)
Lemma iteration_blank (i : nat) (line : str) (rest : list str) (st : store) :
  stdin st = line :: rest -> strip line = [] ->
  iteration backend shells elapsed i st
  = (Value Continue,
     set_stdin rest (set_trace (trace st ++ [Input you_prompt]) st)).
Proof.
  intros Hin Hb. unfold iteration, catch. unfold bind at 1.
  rewrite (@input_line you_prompt line rest st Hin). cbv beta iota zeta.
  rewrite Hb. reflexivity.
Qed.

(** A line with a control phrase for leaving. *)
Lemma iteration_exit (i : nat) (line : str) (rest : list str) (st : store) :
  stdin st = line :: rest -> intent_of (strip line) = Some Exit ->
  iteration backend shells elapsed i st
  = (Value Break,
     set_context
       (appended (memory_size (config st)) (context st)
                 (Turn (lit "user") (strip line)))
       (set_stdin rest
          (set_trace (trace st ++ [Input you_prompt; Print goodbye]) st))).
Proof.
  intros Hin Hi. unfold iteration, catch. unfold bind at 1.
  rewrite (@input_line you_prompt line rest st Hin). cbv beta iota zeta.
  destruct (strip line) as [| c0 t] eqn:Es;
    [rewrite intent_needs_text in Hi; discriminate |].
  unfold bind at 1.
  rewrite (handle_query_special (backend i) (shells i) (c0 :: t) _ Hi).
  change (str_eqb (canned Exit _) (lit "EXIT_REQUEST")) with true.
  cbv iota.
  unfold print, emit, modify, bind, ret, received, set_context, set_stdin,
    set_trace. simpl.
  rewrite <- app_assoc. reflexivity.
Qed.

(** The session ends at the first line that holds [exit] or [quit] and no
    control phrase of higher rank, blank lines before it being skipped:
    the loop stops after reading that line, says goodbye, and has called
    neither the model nor the shell. *)
Theorem exit_ends_session (blanks : list str) (line : str) (rest : list str)
        (fuel i : nat) (st : store) :
  Forall (fun l => strip l = []) blanks ->
  intent_of (strip line) = Some Exit ->
  stdin st = blanks ++ line :: rest ->
  List.length blanks < fuel ->
  exists st',
    loop backend shells elapsed fuel i st = (Value (Some tt), st')
    /\ stdin st' = rest
    /\ trace st'
       = trace st ++ repeat (Input you_prompt) (S (List.length blanks))
                  ++ [Print goodbye]
    /\ context st'
       = appended (memory_size (config st)) (context st)
                  (Turn (lit "user") (strip line))
    /\ safety_checks st' = safety_checks st.
Proof.
  intros Hb Hi. revert fuel i st.
  induction Hb as [| b blanks Hb0 Hb IH]; intros fuel i st Hin Hf.
  - destruct fuel as [| fuel]; [simpl in Hf; lia |].
    simpl loop. unfold bind. simpl app in Hin.
    rewrite (@iteration_exit i line rest st Hin Hi).
    eexists. split; [reflexivity |]. simpl.
    repeat split; reflexivity.
  - destruct fuel as [| fuel]; [simpl in Hf; lia |].
    simpl loop. unfold bind. simpl app in Hin.
    rewrite (@iteration_blank i b (blanks ++ line :: rest) st Hin Hb0).
    destruct (IH fuel (S i)
                 (set_stdin (blanks ++ line :: rest)
                            (set_trace (trace st ++ [Input you_prompt]) st)))
      as (st' & Hl & H1 & H2 & H3 & H4).
    + reflexivity.
    + simpl in Hf. lia.
    + exists st'. split; [exact Hl |]. split; [exact H1 |].
      split; [| split; [exact H3 | exact H4]].
      rewrite H2. simpl trace. rewrite <- app_assoc. reflexivity.
Qed.

Lemma iteration_eof (i : nat) (st : store) :
  stdin st = [] ->
  iteration backend shells elapsed i st
  = (Value Continue,
     set_trace (trace st ++ [Input you_prompt;
                             Print (lit "Error: EOF when reading a line")]) st).
Proof.
  intros Hin. unfold iteration, catch. unfold bind at 1.
  rewrite (@input_eof you_prompt st Hin). cbv beta iota.
  unfold print, emit, modify, bind, ret, set_trace. simpl.
  rewrite <- app_assoc. reflexivity.
Qed.

(** At the end of the console input the loop does not stop: every
    iteration fails to read, reports the error and goes on, so no amount of
    fuel reaches a [break]; the assistant object is left as it is. *)
Theorem eof_never_ends (fuel i : nat) (st : store) :
  stdin st = [] ->
  exists st',
    loop backend shells elapsed fuel i st = (Value None, st')
    /\ trace st'
       = trace st
           ++ List.concat (repeat [Input you_prompt;
                              Print (lit "Error: EOF when reading a line")]
                             fuel)
    /\ context st' = context st
    /\ safety_checks st' = safety_checks st
    /\ stdin st' = [].
Proof.
  revert i st. induction fuel as [| fuel IH]; intros i st Hin.
  - exists st. simpl. rewrite app_nil_r. auto.
  - simpl loop. unfold bind. rewrite (@iteration_eof i st Hin).
    destruct (IH (S i)
                 (set_trace
                    (trace st ++ [Input you_prompt;
                                  Print (lit "Error: EOF when reading a line")])
                    st) Hin)
      as (st' & Hl & Ht & Hc & Hs & Hi).
    exists st'. split; [exact Hl |].
    split; [| auto].
    rewrite Ht. simpl trace. simpl List.concat. rewrite <- app_assoc. reflexivity.
Qed.

Lemma extract_sentinel : _extract_command (lit "EXIT_REQUEST") = None.
Proof. vm_compute. reflexivity. Qed.

(** The end-of-session sentinel is in band: when the model's answer to an
    ordinary input is the text EXIT_REQUEST, possibly with white space
    around it, the loop says goodbye and stops, as it does on [exit]. *)
Theorem sentinel_from_model (i : nat) (line text : str) (rest : list str)
        (st : store) :
  stdin st = line :: rest ->
  strip line <> [] -> intent_of (strip line) = None ->
  backend i (appended (memory_size (config st)) (context st)
                      (Turn (lit "user") (strip line)))
  = Content text ->
  strip text = lit "EXIT_REQUEST" ->
  exists st',
    iteration backend shells elapsed i st = (Value Break, st')
    /\ trace st'
       = trace st
           ++ [ Input you_prompt;
                Post (ollama_endpoint (config st))
                     (appended (memory_size (config st)) (context st)
                               (Turn (lit "user") (strip line)))
                     (api_timeout (config st));
                Print goodbye ]
    /\ stdin st' = rest.
Proof.
  intros Hin Hne Hi Hb Ht. unfold iteration, catch. unfold bind at 1.
  rewrite (@input_line you_prompt line rest st Hin). cbv beta iota zeta.
  destruct (strip line) as [| c0 t] eqn:Es; [congruence |].
  unfold bind at 1.
  rewrite handle_query_model by assumption. cbv zeta.
  change (context (received (c0 :: t) _))
    with (appended (memory_size (config st)) (context st)
                   (Turn (lit "user") (c0 :: t))).
  rewrite Hb. simpl response_of. rewrite Ht, extract_sentinel.
  change (str_eqb (lit "EXIT_REQUEST") (lit "EXIT_REQUEST")) with true.
  cbv iota.
  unfold print, emit, modify, bind, ret. simpl.
  eexists. split; [reflexivity |]. simpl.
  rewrite Hb. simpl. rewrite <- !app_assoc. auto.
Qed.

End MainLoop.

(** The loop at concrete inputs. *)
Lemma exit_ends_session_witness :
  exists st',
    loop (fun _ => dead_api) (fun _ => ok_shell) (fun _ => lit "0.00") 5 0
         (fresh default_settings [lit "  "; lit ""; lit "I QUIT now"; lit "more"])
    = (Value (Some tt), st')
    /\ stdin st' = [lit "more"].
Proof.
  destruct (@exit_ends_session
              (fun _ => dead_api) (fun _ => ok_shell) (fun _ => lit "0.00")
              [lit "  "; lit ""] (lit "I QUIT now") [lit "more"] 5 0
              (fresh default_settings
                     [lit "  "; lit ""; lit "I QUIT now"; lit "more"]))
    as (st' & Hl & Hin & _).
  - repeat constructor.
  - vm_compute. reflexivity.
  - reflexivity.
  - simpl. lia.
  - exists st'. split; [exact Hl | exact Hin].
Defined.

Lemma eof_never_ends_witness :
  fst (loop (fun _ => dead_api) (fun _ => ok_shell) (fun _ => lit "0.00") 7 0
            (fresh default_settings []))
  = Value None.
Proof.
  destruct (@eof_never_ends
              (fun _ => dead_api) (fun _ => ok_shell) (fun _ => lit "0.00")
              7 0 (fresh default_settings []))
    as (st' & Hl & _).
  - reflexivity.
  - rewrite Hl. reflexivity.
Defined.

Lemma sentinel_from_model_witness :
  fst (iteration (fun _ _ => Content (lit " EXIT_REQUEST\n"))
                 (fun _ => ok_shell) (fun _ => lit "0.00") 0
                 (fresh default_settings [lit "hello"]))
  = Value Break.
Proof.
  destruct (@sentinel_from_model
              (fun _ _ => Content (lit " EXIT_REQUEST\n"))
              (fun _ => ok_shell) (fun _ => lit "0.00") 0
              (lit "hello") (lit " EXIT_REQUEST\n") []
              (fresh default_settings [lit "hello"]))
    as (st' & Hl & _).
  - reflexivity.
  - discriminate.
  - vm_compute. reflexivity.
  - reflexivity.
  - vm_compute. reflexivity.
  - rewrite Hl. reflexivity.
Defined.

(** ** The configuration after loading *)

Section LoadedConfig.

Import Config.

(** A file that is an object and gives none of the sections [api],
    [security] and [context] - only personality settings or keys unknown to
    the assistant, say - leaves the core at its default settings, and
    nothing is logged. *)
Theorem file_without_core_sections (d : dict) :
  lookup (lit "api") d = None -> lookup (lit "security") d = None ->
  lookup (lit "context") d = None ->
  settings_of (fst (_load_config (Parsed (JDict d)))) = Some default_settings
  /\ snd (_load_config (Parsed (JDict d))) = [].
Proof.
  intros Ha Hs Hc. split; [| reflexivity].
  change (fst (_load_config (Parsed (JDict d)))) with (merge default_config d).
  unfold settings_of, getitem2. cbn [getitem].
  rewrite !lookup_merge, Ha, Hs, Hc. reflexivity.
Qed.

Lemma file_without_core_sections_witness :
  settings_of
    (fst (_load_config
            (Parsed (JDict [(lit "personality",
                             JDict [(lit "tone", JStr (lit "casual"))])]))))
  = Some default_settings.
Proof.
  apply (@file_without_core_sections
           [(lit "personality", JDict [(lit "tone", JStr (lit "casual"))])]);
    reflexivity.
Defined.

(** A section that the file gives replaces the default section whole: after
    loading, every key of that section reads as in the file, and a key that
    the file's section lacks is absent, whatever the defaults hold for it. *)
Theorem file_section_replaces_default (d : dict) (section key : str) (given : json) :
  lookup section d = Some given ->
  getitem2 section key (JDict (fst (_load_config (Parsed (JDict d)))))
  = getitem key given
  /\ (getitem key given = None ->
      getitem2 section key (JDict (fst (_load_config (Parsed (JDict d))))) = None).
Proof.
  intros Hs.
  assert (H : getitem2 section key (JDict (fst (_load_config (Parsed (JDict d)))))
              = getitem key given).
  { change (fst (_load_config (Parsed (JDict d)))) with (merge default_config d).
    unfold getitem2. cbn [getitem]. rewrite lookup_merge, Hs. reflexivity. }
  split; [exact H | intros Hn; rewrite H; exact Hn].
Qed.

Lemma file_section_replaces_default_witness :
  getitem2 (lit "api") (lit "timeout")
           (JDict (fst (_load_config
                          (Parsed (JDict [(lit "api",
                                           JDict [(lit "ollama_endpoint",
                                                   JStr (lit "http://box:11434/api/chat"))])])))))
  = None.
Proof.
  apply (@file_section_replaces_default
           [(lit "api",
             JDict [(lit "ollama_endpoint", JStr (lit "http://box:11434/api/chat"))])]
           (lit "api") (lit "timeout")
           (JDict [(lit "ollama_endpoint", JStr (lit "http://box:11434/api/chat"))])).
  - reflexivity.
  - reflexivity.
Defined.

End LoadedConfig.

(** ** Control phrases inside other text *)

Lemma contains_inside (w pre post : str) :
  contains w (pre ++ w ++ post) = true.
Proof.
  unfold contains. induction pre as [| c pre IH].
  - simpl app. destruct w as [| h w]; [destruct post; reflexivity |].
    change ((h :: w) ++ post) with (h :: (w ++ post)). rewrite find_cons.
    change (h :: (w ++ post)) with ((h :: w) ++ post).
    rewrite startswith_prefix. reflexivity.
  - change ((c :: pre) ++ w ++ post) with (c :: (pre ++ w ++ post)).
    rewrite find_cons.
    destruct (startswith w (c :: pre ++ w ++ post)); [reflexivity |].
    destruct (find w (pre ++ w ++ post)); [reflexivity | discriminate IH].
Qed.

Lemma lower_app (a b : str) : lower (a ++ b) = lower a ++ lower b.
Proof. apply map_app. Qed.

(** The letters of [exit] or [quit], in any letter case and anywhere in the
    input - inside a longer word or a question about something else - make
    the input a control phrase: the model is not asked and nothing is
    printed, read or run; and unless one of the three phrases tested
    before is present as well, the result is the sentinel EXIT_REQUEST. *)
Theorem exit_inside_any_text (api : list turn -> reply)
        (shell : str -> Z -> finished) (pre word post : str) (st : store) :
  lower word = lit "exit" \/ lower word = lit "quit" ->
  let u := pre ++ word ++ post in
  exists i,
    intent_of u = Some i
    /\ trace (snd (handle_query api shell u st)) = trace st
    /\ (contains (lit "toggle safety") (lower u) = false ->
        contains (lit "system information") (lower u) = false ->
        contains (lit "conversation history") (lower u) = false ->
        fst (handle_query api shell u st) = Value (lit "EXIT_REQUEST")).
Proof.
  intros Hw. cbv zeta.
  assert (He : (contains (lit "exit") (lower (pre ++ word ++ post))
                || contains (lit "quit") (lower (pre ++ word ++ post)))%bool
               = true).
  { rewrite !lower_app.
    destruct Hw as [-> | ->]; rewrite contains_inside;
      [reflexivity | apply orb_true_r]. }
  assert (Hi : exists i, intent_of (pre ++ word ++ post) = Some i
                         /\ (contains (lit "toggle safety")
                                      (lower (pre ++ word ++ post)) = false ->
                             contains (lit "system information")
                                      (lower (pre ++ word ++ post)) = false ->
                             contains (lit "conversation history")
                                      (lower (pre ++ word ++ post)) = false ->
                             i = Exit)).
  { unfold intent_of.
    destruct (contains (lit "toggle safety") (lower (pre ++ word ++ post)));
      [eexists; split; [reflexivity | discriminate] |].
    destruct (contains (lit "system information") (lower (pre ++ word ++ post)));
      [eexists; split; [reflexivity | discriminate] |].
    destruct (contains (lit "conversation history") (lower (pre ++ word ++ post)));
      [eexists; split; [reflexivity | discriminate] |].
    rewrite He. eexists. split; reflexivity. }
  destruct Hi as (i & Hi & Hexit). exists i. split; [exact Hi |].
  rewrite (handle_query_special api shell _ st Hi).
  split.
  - destruct i; reflexivity.
  - intros H1 H2 H3. rewrite (Hexit H1 H2 H3). reflexivity.
Qed.

Lemma exit_inside_any_text_witness :
  fst (handle_query dead_api ok_shell
                    (lit "how do I " ++ lit "Exit" ++ lit " vim?")
                    (fresh default_settings []))
  = Value (lit "EXIT_REQUEST").
Proof.
  destruct (@exit_inside_any_text
              dead_api ok_shell (lit "how do I ") (lit "Exit") (lit " vim?")
              (fresh default_settings []))
    as (i & _ & _ & Hq).
  - left. reflexivity.
  - apply Hq; vm_compute; reflexivity.
Defined.

(** ** What the model is sent *)



